(** * A URL shortener over a document store: model and properties

    The development embeds [server.js] (the Express routes) together with the
    Mongoose schema [models/Url.js] and proves properties of the three routes
    the service is built around:

    - [POST /api/shorten]   ([shorten])
    - [GET /:shortCode]     ([resolve])
    - [GET /api/admin/stats] ([stats])

    Strings are sequences of code units; the model keeps one [ascii] per code
    unit, so it covers the strings whose code units are below 256.  The
    database collection is the list of its documents in insertion order, the
    clock and the identifier generator are explicit inputs.  A counter is a
    Number that holds an integer, and adding 1 to it rounds as doubles do; a
    redirect carries the [Location] that Express computes from the URL.  Requests are
    handled one at a time and the database always answers: a handler's
    [catch] branch is reached only through a rejected [save]. *)

From Stdlib Require Import ZArith NArith Ascii String Lia.
From stdpp Require Import base decidable option list numbers strings sorting.

Local Open Scope N_scope.

(** ** Code units and character classes *)

Module Char.

Definition code (c : ascii) : N := N_of_ascii c.

Definition between (lo hi : N) (c : ascii) : bool :=
  (lo <=? code c) && (code c <=? hi).

Definition code_is (n : N) (c : ascii) : bool := code c =? n.

Definition ascii_digit : ascii -> bool := between 48 57.
Definition ascii_upper_alpha : ascii -> bool := between 65 90.
Definition ascii_lower_alpha : ascii -> bool := between 97 122.

Definition ascii_alpha (c : ascii) : bool :=
  ascii_upper_alpha c || ascii_lower_alpha c.

Definition ascii_alphanumeric (c : ascii) : bool :=
  ascii_digit c || ascii_alpha c.

Definition ascii_hex_digit (c : ascii) : bool :=
  ascii_digit c || between 65 70 c || between 97 102 c.

Definition ascii_octal_digit : ascii -> bool := between 48 55.

Definition ascii_code_point (c : ascii) : bool := code c <? 128.

(** ASCII lowercase of one code unit. *)
Definition lowercase (c : ascii) : ascii :=
  if ascii_upper_alpha c then ascii_of_N (code c + 32) else c.

(** Value of a hexadecimal digit (0 for any other code unit). *)
Definition hex_value (c : ascii) : N :=
  if ascii_digit c then code c - 48
  else if between 65 70 c then code c - 55
  else if between 97 102 c then code c - 87
  else 0.

(** [String.prototype.trim] removes WhiteSpace and LineTerminator code units:
    TAB, LF, VT, FF, CR, SPACE and NO-BREAK SPACE are the ones below 256. *)
Definition js_whitespace (c : ascii) : bool :=
  between 9 13 c || code_is 32 c || code_is 160 c.

(** The URL Standard's "C0 control or space". *)
Definition c0_control_or_space (c : ascii) : bool := code c <=? 32.

Definition c0_control (c : ascii) : bool := code c <=? 31.

(** The URL Standard's "ASCII tab or newline". *)
Definition ascii_tab_or_newline (c : ascii) : bool :=
  code_is 9 c || code_is 10 c || code_is 13 c.

End Char.

(** ** Sequences of code units *)

Module Units.

Definition eqc (c x : ascii) : bool := Ascii.eqb c x.

Fixpoint drop_leading (p : ascii -> bool) (l : list ascii) : list ascii :=
  match l with
  | [] => []
  | c :: r => if p c then drop_leading p r else l
  end.

Fixpoint drop_trailing (p : ascii -> bool) (l : list ascii) : list ascii :=
  match l with
  | [] => []
  | c :: r =>
      match drop_trailing p r with
      | [] => if p c then [] else [c]
      | r' => c :: r'
      end
  end.

Fixpoint take_while (p : ascii -> bool) (l : list ascii) : list ascii :=
  match l with
  | [] => []
  | c :: r => if p c then c :: take_while p r else []
  end.

(** "Strictly split" of the Infra Standard: the pieces between the
    occurrences of [sep], empty pieces included. *)
Fixpoint strictly_split (sep : ascii) (l : list ascii) : list (list ascii) :=
  match l with
  | [] => [[]]
  | c :: r =>
      if eqc c sep then [] :: strictly_split sep r
      else match strictly_split sep r with
           | p :: ps => (c :: p) :: ps
           | [] => [[c]]
           end
  end.

Definition all (p : ascii -> bool) (l : list ascii) : bool := forallb p l.
Definition any (p : ascii -> bool) (l : list ascii) : bool := existsb p l.

(** Does [l] start with [prefix], comparing ASCII case-insensitively? *)
Fixpoint starts_with_ci (prefix l : list ascii) : bool :=
  match prefix, l with
  | [], _ => true
  | p :: ps, c :: r => eqc (Char.lowercase c) (Char.lowercase p) && starts_with_ci ps r
  | _ :: _, [] => false
  end.

(** The number written by the digits of [l] in radix [radix]. *)
Fixpoint number_in_radix (radix acc : N) (l : list ascii) : N :=
  match l with
  | [] => acc
  | c :: r => number_in_radix radix (acc * radix + Char.hex_value c) r
  end.

End Units.

(** ** JavaScript string operations used by the schema setters *)

Module JS.

Definition trim_units (l : list ascii) : list ascii :=
  Units.drop_trailing Char.js_whitespace (Units.drop_leading Char.js_whitespace l).

(** [s.trim()] *)
Definition trim (s : string) : string :=
  string_of_list_ascii (trim_units (list_ascii_of_string s)).

(** [n + 1] on Numbers, for a Number [n] that holds an integer.  Numbers are
    IEEE 754 doubles and the sum is rounded to the nearest double, ties to
    the even significand.  From [-2^53] to [2^53 - 1] the sum is exact.
    Between [2^53] and [2^54] in absolute value the doubles are the even
    integers: [n + 1] lies half-way between [n] and [n + 2] and rounds to
    the one that is a multiple of 4.  Farther out [n + 1] rounds back to
    [n]. *)
Definition add1 (n : Z) : Z :=
  if bool_decide (- 2 ^ 53 <= n < 2 ^ 53)%Z then (n + 1)%Z
  else if bool_decide (- 2 ^ 54 < n < 2 ^ 54)%Z
       then (if (n mod 4 =? 0)%Z then n else n + 2)%Z
       else n.

End JS.

(** ** The [URL] constructor: the basic URL parser of the URL Standard

    [new URL(string)] runs the basic URL parser on [string] without a base
    URL and without a state override, and throws exactly when the parser
    returns failure.  The parser below follows the Standard state by state.
    It keeps the components a caller can observe failure through: the scheme
    and the host (and the range check of the port); credentials, path, query
    and fragment are consumed but not stored, since no step that builds them
    can fail. *)

Module URL.

Import Units.

Local Open Scope char_scope.
Local Open Scope N_scope.

Inductive Host : Type :=
| Domain (d : string)
| IPv4 (address : N)
| IPv6 (pieces : list N)
| OpaqueHost (h : string)
| EmptyHost.

Record URLRecord : Type := mkURL { scheme : string; host : option Host }.

Definition special_scheme (s : string) : bool :=
  bool_decide (s ∈ ["ftp"; "file"; "http"; "https"; "ws"; "wss"]%string).

Definition forbidden_host_code_point (c : ascii) : bool :=
  Char.code_is 0 c || Char.code_is 9 c || Char.code_is 10 c || Char.code_is 13 c
  || eqc c " " || eqc c "#" || eqc c "/" || eqc c ":" || eqc c "<" || eqc c ">"
  || eqc c "?" || eqc c "@" || eqc c "[" || eqc c "\" || eqc c "]" || eqc c "^"
  || eqc c "|".

Definition forbidden_domain_code_point (c : ascii) : bool :=
  forbidden_host_code_point c || Char.c0_control c || eqc c "%"
  || Char.code_is 127 c.

(** *** Percent-decoding and percent-encoding *)

Fixpoint percent_decode (l : list ascii) : list ascii :=
  match l with
  | [] => []
  | c :: tl =>
      match tl with
      | h1 :: h2 :: r =>
          if eqc c "%" && Char.ascii_hex_digit h1 && Char.ascii_hex_digit h2
          then ascii_of_N (16 * Char.hex_value h1 + Char.hex_value h2) :: percent_decode r
          else c :: percent_decode tl
      | _ => c :: percent_decode tl
      end
  end.

Definition hex_digit (n : N) : ascii :=
  if n <? 10 then ascii_of_N (48 + n) else ascii_of_N (55 + n).

Definition percent_encode_byte (b : N) : list ascii :=
  ["%"; hex_digit (b / 16); hex_digit (b mod 16)].

(** UTF-8 bytes of a code point below 256. *)
Definition utf8_encode (c : ascii) : list N :=
  let n := Char.code c in
  if n <? 128 then [n] else [192 + n / 64; 128 + n mod 64].

(** UTF-8 percent-encoding with the C0 control percent-encode set (C0
    controls and every code point above U+007E). *)
Definition percent_encode_c0 (c : ascii) : list ascii :=
  if Char.c0_control c || (126 <? Char.code c)
  then concat (map percent_encode_byte (utf8_encode c))
  else [c].

(** *** IPv4 *)

(** The IPv4 number parser; [None] is failure. *)
Definition IPv4_number_parser (input : list ascii) : option N :=
  match input with
  | [] => None
  | _ =>
      let '(input, radix, digit) :=
        match input with
        | "0" :: x :: r =>
            if eqc x "X" || eqc x "x" then (r, 16%N, Char.ascii_hex_digit)
            else (x :: r, 8%N, Char.ascii_octal_digit)
        | _ => (input, 10%N, Char.ascii_digit)
        end in
      match input with
      | [] => Some 0%N
      | _ => if all digit input then Some (number_in_radix radix 0 input) else None
      end
  end.

(** The parts the IPv4 parser and the ends-in-a-number checker look at:
    the strict split on ".", without one trailing empty part. *)
Definition last_part (parts : list (list ascii)) : list ascii :=
  List.last parts [].

Definition ends_in_a_number (input : list ascii) : bool :=
  let parts := strictly_split "." input in
  let check (parts : list (list ascii)) :=
    let l := last_part parts in
    (negb (bool_decide (l = [])) && all Char.ascii_digit l)
    || bool_decide (is_Some (IPv4_number_parser l)) in
  if bool_decide (last_part parts = [])
  then if (length parts =? 1)%nat then false else check (removelast parts)
  else check parts.

Definition IPv4_parser (input : list ascii) : option N :=
  let parts := strictly_split "." input in
  let parts :=
    if bool_decide (last_part parts = []) && (1 <? length parts)%nat
    then removelast parts else parts in
  if (4 <? length parts)%nat then None
  else
    numbers ← mapM IPv4_number_parser parts;
    if existsb (fun n => 255 <? n) (removelast numbers) then None
    else
      let l := List.last numbers 0 in
      if 256 ^ (5 - N.of_nat (length numbers)) <=? l then None
      else
        Some (fold_left (fun ipv4 '(n, counter) => ipv4 + n * 256 ^ (3 - N.of_nat counter))
                        (combine (removelast numbers) (seq 0 (length numbers))) l).

(** *** IPv6 *)

(** Up to [n] hexadecimal digits: the value read, how many, and the rest. *)
Fixpoint read_hex (n : nat) (value : N) (len : nat) (input : list ascii)
  : N * nat * list ascii :=
  match n, input with
  | S n', c :: r =>
      if Char.ascii_hex_digit c
      then read_hex n' (value * 16 + Char.hex_value c) (S len) r
      else (value, len, input)
  | _, _ => (value, len, input)
  end.

(** One decimal piece of an embedded IPv4 address; [None] is failure. *)
Fixpoint ipv4_piece (piece : option N) (input : list ascii)
  : option (option N * list ascii) :=
  match input with
  | c :: r =>
      if Char.ascii_digit c then
        let number := Char.code c - 48 in
        match piece with
        | None => ipv4_piece (Some number) r
        | Some 0%N => None
        | Some p =>
            let p := p * 10 + number in
            if 255 <? p then None else ipv4_piece (Some p) r
        end
      else Some (piece, input)
  | [] => Some (piece, [])
  end.

(** The embedded IPv4 address at the end of an IPv6 address.  Every round
    reads at least one digit, so [fuel] above the input's length suffices. *)
Fixpoint ipv4_in_ipv6 (fuel : nat) (address : list N) (pieceIndex numbersSeen : nat)
    (input : list ascii) : option (list N * nat) :=
  match fuel with
  | O => None
  | S fuel =>
      match input with
      | [] => if (numbersSeen =? 4)%nat then Some (address, pieceIndex) else None
      | c :: rest =>
          let after_dot :=
            if (0 <? numbersSeen)%nat
            then if eqc c "." && (numbersSeen <? 4)%nat then Some rest else None
            else Some input in
          input ← after_dot;
          match input with
          | d :: _ =>
              if Char.ascii_digit d then
                '(piece, input) ← ipv4_piece None input;
                v ← piece;
                let address := <[pieceIndex := List.nth pieceIndex address 0 * 256 + v]> address in
                let numbersSeen := S numbersSeen in
                let pieceIndex :=
                  if (numbersSeen =? 2)%nat || (numbersSeen =? 4)%nat
                  then S pieceIndex else pieceIndex in
                ipv4_in_ipv6 fuel address pieceIndex numbersSeen input
              else None
          | [] => None
          end
      end
  end.

(** The main loop of the IPv6 parser.  Every round consumes a code point. *)
Fixpoint ipv6_pieces (fuel : nat) (address : list N) (pieceIndex : nat)
    (compress : option nat) (input : list ascii)
  : option (list N * nat * option nat) :=
  match fuel with
  | O => None
  | S fuel =>
      match input with
      | [] => Some (address, pieceIndex, compress)
      | c :: rest =>
          if (pieceIndex =? 8)%nat then None
          else if eqc c ":" then
            match compress with
            | Some _ => None
            | None => ipv6_pieces fuel address (S pieceIndex) (Some (S pieceIndex)) rest
            end
          else
            let '(value, len, after) := read_hex 4 0 0 input in
            match after with
            | [] => Some (<[pieceIndex := value]> address, S pieceIndex, compress)
            | x :: after' =>
                if eqc x "." then
                  if (len =? 0)%nat then None
                  else if (6 <? pieceIndex)%nat then None
                  else
                    '(address, pieceIndex) ←
                      ipv4_in_ipv6 (S (length input)) address pieceIndex 0 input;
                    Some (address, pieceIndex, compress)
                else if eqc x ":" then
                  match after' with
                  | [] => None
                  | _ => ipv6_pieces fuel (<[pieceIndex := value]> address)
                                     (S pieceIndex) compress after'
                  end
                else None
            end
      end
  end.

Definition IPv6_parser (input : list ascii) : option (list N) :=
  let start :=
    match input with
    | ":" :: r =>
        match r with
        | ":" :: r' => Some (1%nat, Some 1%nat, r')
        | _ => None
        end
    | _ => Some (0%nat, None, input)
    end in
  '(pieceIndex, compress, input) ← start;
  '(address, pieceIndex, compress) ←
    ipv6_pieces (S (length input)) (replicate 8 0) pieceIndex compress input;
  match compress with
  | Some k =>
      (* the pieces read after the compression move to the end *)
      Some (take k address ++ replicate (8 - pieceIndex) 0
              ++ take (pieceIndex - k) (drop k address))
  | None => if (pieceIndex =? 8)%nat then Some address else None
  end.

(** *** The host parser *)

Section Parser.

(** Domain to ASCII outside its ASCII fast path: UTF-8 decoding of the
    percent-decoded input followed by Unicode ToASCII (UTS #46).  It rests on
    the Unicode tables of the platform and stays a parameter; it is consulted
    only for a host with a non-ASCII code point or a label that starts with
    "xn--". *)
Variable unicode_ToASCII : list ascii -> option (list ascii).

(** For an ASCII domain none of whose labels starts with "xn--", domain to
    ASCII is ASCII lowercasing (the Standard's own note). *)
Definition domain_to_ASCII (input : list ascii) : option (list ascii) :=
  let domain := percent_decode input in
  result ←
    (if all Char.ascii_code_point input && all Char.ascii_code_point domain
        && negb (existsb (starts_with_ci ["x"; "n"; "-"; "-"]) (strictly_split "." domain))
     then Some (map Char.lowercase domain)
     else unicode_ToASCII input);
  if bool_decide (result = []) then None else Some result.

Definition opaque_host_parser (input : list ascii) : option Host :=
  if any forbidden_host_code_point input then None
  else
    match concat (map percent_encode_c0 input) with
    | [] => Some EmptyHost
    | h => Some (OpaqueHost (string_of_list_ascii h))
    end.

Definition host_parser (input : list ascii) (isOpaque : bool) : option Host :=
  match input with
  | "[" :: r =>
      match reverse r with
      | "]" :: m => IPv6 <$> IPv6_parser (reverse m)
      | _ => None
      end
  | _ =>
      if isOpaque then opaque_host_parser input
      else
        asciiDomain ← domain_to_ASCII input;
        if any forbidden_domain_code_point asciiDomain then None
        else if ends_in_a_number asciiDomain then IPv4 <$> IPv4_parser asciiDomain
        else Some (Domain (string_of_list_ascii asciiDomain))
  end.

(** *** The states of the basic URL parser

    Each state is a function of the code points from the pointer on.  With no
    base URL, the path, query and fragment states cannot fail: reaching one
    of them is success. *)

(** The code points that end the authority: "/", "?", "#", and "\" in a
    special URL.  The end of the input ends it as well. *)
Definition ends_authority (special : bool) (c : ascii) : bool :=
  eqc c "/" || eqc c "?" || eqc c "#" || (special && eqc c "\").

(** Port state, run on the code points between the ":" and the end of the
    authority. *)
Definition port_state (buffer : list ascii) : bool :=
  all Char.ascii_digit buffer
  && (bool_decide (buffer = []) || (number_in_radix 10 0 buffer <=? 65535)).

(** Host state, run on the code points between the credentials and the end
    of the authority. *)
Fixpoint host_state (special insideBrackets : bool) (buffer input : list ascii)
  : option Host :=
  match input with
  | [] =>
      if special && bool_decide (buffer = []) then None
      else host_parser buffer (negb special)
  | c :: rest =>
      if eqc c ":" && negb insideBrackets then
        if bool_decide (buffer = []) then None
        else
          h ← host_parser buffer (negb special);
          if port_state rest then Some h else None
      else
        let insideBrackets :=
          if eqc c "[" then true else if eqc c "]" then false else insideBrackets in
        host_state special insideBrackets (buffer ++ [c]) rest
  end.

(** Authority state.  [buffer] holds the code points since the last "@". *)
Fixpoint authority_state (special atSignSeen : bool) (buffer input : list ascii)
  : option Host :=
  let finish :=
    if atSignSeen && bool_decide (buffer = []) then None
    else host_state special false [] buffer in
  match input with
  | [] => finish
  | c :: rest =>
      if eqc c "@" then authority_state special true [] rest
      else if ends_authority special c then finish
      else authority_state special atSignSeen (buffer ++ [c]) rest
  end.

Fixpoint special_authority_ignore_slashes_state (input : list ascii) : option Host :=
  match input with
  | c :: rest =>
      if eqc c "/" || eqc c "\" then special_authority_ignore_slashes_state rest
      else authority_state true false [] input
  | [] => authority_state true false [] []
  end.

Definition special_authority_slashes_state (input : list ascii) : option Host :=
  match input with
  | "/" :: "/" :: rest => special_authority_ignore_slashes_state rest
  | _ => special_authority_ignore_slashes_state input
  end.

(** Path or authority state; [None] inside is the null host of a URL that
    goes on to the path state. *)
Definition path_or_authority_state (input : list ascii) : option (option Host) :=
  match input with
  | "/" :: rest => Some <$> authority_state false false [] rest
  | _ => Some None
  end.

Definition windows_drive_letter (buffer : list ascii) : bool :=
  match buffer with
  | [a; b] => Char.ascii_alpha a && (eqc b ":" || eqc b "|")
  | _ => false
  end.

Definition file_host_state (input : list ascii) : option Host :=
  let buffer :=
    take_while (fun c => negb (eqc c "/" || eqc c "\" || eqc c "?" || eqc c "#")) input in
  if windows_drive_letter buffer then Some EmptyHost
  else if bool_decide (buffer = []) then Some EmptyHost
  else
    h ← host_parser buffer false;
    Some match h with
         | Domain d => if bool_decide (d = "localhost"%string) then EmptyHost else h
         | _ => h
         end.

Definition file_slash_state (input : list ascii) : option Host :=
  match input with
  | c :: rest => if eqc c "/" || eqc c "\" then file_host_state rest else Some EmptyHost
  | [] => Some EmptyHost
  end.

Definition file_state (input : list ascii) : option Host :=
  match input with
  | c :: rest => if eqc c "/" || eqc c "\" then file_slash_state rest else Some EmptyHost
  | [] => Some EmptyHost
  end.

(** Scheme state: [Some (scheme, remaining)] once the ":" is read; [None]
    leads to the no scheme state, which fails without a base URL. *)
Fixpoint scheme_state (buffer input : list ascii) : option (list ascii * list ascii) :=
  match input with
  | c :: rest =>
      if Char.ascii_alphanumeric c || eqc c "+" || eqc c "-" || eqc c "."
      then scheme_state (buffer ++ [Char.lowercase c]) rest
      else if eqc c ":" then Some (buffer, rest)
      else None
  | [] => None
  end.

Definition scheme_start_state (input : list ascii) : option (list ascii * list ascii) :=
  match input with
  | c :: rest =>
      if Char.ascii_alpha c then scheme_state [Char.lowercase c] rest else None
  | [] => None
  end.

(** Where the scheme state goes after the ":". *)
Definition after_scheme (scheme : string) (remaining : list ascii) : option URLRecord :=
  if bool_decide (scheme = "file"%string) then
    h ← file_state remaining; Some (mkURL scheme (Some h))
  else if special_scheme scheme then
    h ← special_authority_slashes_state remaining; Some (mkURL scheme (Some h))
  else
    match remaining with
    | "/" :: rest => h ← path_or_authority_state rest; Some (mkURL scheme h)
    | _ => Some (mkURL scheme None)
    end.

(** Leading and trailing C0 controls and spaces are removed, then every
    ASCII tab or newline. *)
Definition strip (input : list ascii) : list ascii :=
  List.filter (fun c => negb (Char.ascii_tab_or_newline c))
    (drop_trailing Char.c0_control_or_space
       (drop_leading Char.c0_control_or_space input)).

Definition basic_URL_parser (input : string) : option URLRecord :=
  '(scheme, remaining) ← scheme_start_state (strip (list_ascii_of_string input));
  after_scheme (string_of_list_ascii scheme) remaining.

End Parser.

End URL.

(** ** What Express sends for [res.redirect]

    [res.redirect(url)] answers 302 with the header [Location] set by
    [res.location(url)], which passes the string through [encodeUrl] of the
    package encodeurl.  The releases differ in two points that can be seen
    here: Express 4 reads the string "back" as the request's Referrer, Express
    5 does not; and encodeurl 1 escapes the backslash, the caret and the
    vertical bar, which encodeurl 2 leaves alone.  A [Release] says which
    holds; the properties below hold for each.  (Express 4.19.0 and 4.19.1,
    which left the scheme and the host of the string unencoded, are not among
    them.) *)

Module Express.

Import Units.

Local Open Scope char_scope.
Local Open Scope N_scope.

Record Release : Type := mkRelease {
  back_alias : bool;
  encodeurl_1 : bool
}.

(** The code units that [encodeURI] leaves as they are. *)
Definition encodeURI_keeps (c : ascii) : bool :=
  Char.ascii_alphanumeric c
  || any (eqc c) (list_ascii_of_string ";/?:@&=+$,-_.!~*'()#").

(** [encodeURI] of one code unit: the percent-encoded UTF-8 bytes of a code
    unit that is not kept. *)
Definition encodeURI_unit (c : ascii) : list ascii :=
  if encodeURI_keeps c then [c]
  else mjoin (URL.percent_encode_byte <$> URL.utf8_encode c).

(** The character class of [ENCODE_CHARS_REGEXP], which the expression
    negates: [\x21\x25\x26-\x3B\x3D\x3F-\x5B\x5D\x5F\x61-\x7A\x7E] in
    encodeurl 1 and [\x21\x23-\x3B\x3D\x3F-\x5F\x61-\x7A\x7C\x7E] in
    encodeurl 2. *)
Definition url_code_point (release : Release) (c : ascii) : bool :=
  if encodeurl_1 release then
    Char.code_is 33 c || Char.between 37 59 c || Char.code_is 61 c
    || Char.between 63 91 c || Char.code_is 93 c || Char.code_is 95 c
    || Char.between 97 122 c || Char.code_is 126 c
  else
    Char.code_is 33 c || Char.between 35 59 c || Char.code_is 61 c
    || Char.between 63 95 c || Char.between 97 122 c || Char.code_is 124 c
    || Char.code_is 126 c.

(** [url.replace(ENCODE_CHARS_REGEXP, encodeURI)], position by position.
    The expression matches a code unit outside the class, and a "%" that is
    not followed by two hexadecimal digits together with what follows it:
    one code unit that is no hexadecimal digit, or a hexadecimal digit and
    one code unit that is none, or the end of the string.  What is matched
    goes through [encodeURI], the rest stays. *)
Fixpoint encode (release : Release) (l : list ascii) : list ascii :=
  match l with
  | [] => []
  | c :: rest =>
      if eqc c "%" then
        match rest with
        | [] => encodeURI_unit c
        | x :: rest' =>
            if negb (Char.ascii_hex_digit x)
            then encodeURI_unit c ++ encodeURI_unit x ++ encode release rest'
            else
              match rest' with
              | [] => c :: encode release rest
              | y :: rest'' =>
                  if negb (Char.ascii_hex_digit y)
                  then encodeURI_unit c ++ encodeURI_unit x ++ encodeURI_unit y
                       ++ encode release rest''
                  else c :: encode release rest
              end
        end
      else if url_code_point release c then c :: encode release rest
      else encodeURI_unit c ++ encode release rest
  end.

(** [encodeUrl(url)] *)
Definition encodeUrl (release : Release) (url : string) : string :=
  string_of_list_ascii (encode release (list_ascii_of_string url)).

(** A string made of code units of the class, without a "%". *)
Definition plain (release : Release) (url : string) : bool :=
  all (fun c => url_code_point release c && negb (eqc c "%")) (list_ascii_of_string url).

(** [res.location(url)] for a request with the header [referrer]:
    [req.get('Referrer') || '/'] stands in for "back" where the release has
    the alias. *)
Definition location (release : Release) (referrer : option string) (url : string)
  : string :=
  let loc :=
    if back_alias release && bool_decide (url = "back"%string)
    then match referrer with
         | Some r => if bool_decide (r = ""%string) then "/"%string else r
         | None => "/"%string
         end
    else url in
  encodeUrl release loc.

End Express.

Local Close Scope N_scope.
Local Open Scope string_scope.
Local Open Scope Z_scope.

(** ** The [Url] model ([models/Url.js]) and its collection *)

Module Model.

(** A document of the collection.  [clicks] is a JavaScript Number holding
    an integer count; dates are milliseconds since the epoch, [lastAccessed]
    is [None] for [null]. *)
Record Url : Type := mkUrl {
  originalUrl : string;
  shortCode : string;
  clicks : Z;
  createdAt : Z;
  lastAccessed : option Z
}.

(** [new Url({ originalUrl, shortCode })] at clock reading [now]: both
    strings go through the [trim] setter of their path, the other paths take
    their defaults ([0], [Date.now], [null]). *)
Definition new_Url (now : Z) (originalUrl shortCode : string) : Url :=
  {| originalUrl := JS.trim originalUrl;
     shortCode := JS.trim shortCode;
     clicks := 0;
     createdAt := now;
     lastAccessed := None |}.

(** The [required] validators, run by [save]: a required string is not
    empty. *)
Definition validate (url : Url) : bool :=
  negb (bool_decide (originalUrl url = "")) && negb (bool_decide (shortCode url = "")).

(** [Url.findOne({ originalUrl })]: the first document, in insertion order,
    whose [originalUrl] is the filter's value.  Mongoose casts the filter
    with the schema, and casting a string for a query applies the setters of
    its path, so the value is trimmed here as it is in [new_Url].  The result
    carries the position of the document, which stands for its [_id]. *)
Definition findOne_originalUrl (value : string) (coll : list Url) : option (nat * Url) :=
  list_find (fun url => originalUrl url = JS.trim value) coll.

(** [Url.findOne({ shortCode })] *)
Definition findOne_shortCode (value : string) (coll : list Url) : option (nat * Url) :=
  list_find (fun url => shortCode url = JS.trim value) coll.

(** [url.save()] of a new document: validation, then an insert that the
    unique index on [shortCode] rejects when the code is taken.  [None] is
    the rejected promise. *)
Definition save_new (url : Url) (coll : list Url) : option (list Url) :=
  if validate url && negb (bool_decide (shortCode url ∈ shortCode <$> coll))
  then Some (coll ++ [url])%list
  else None.

(** [url.save()] of a document loaded from position [i]: validation, then
    the modified paths are written back to that document (the code is not
    modified, so the unique index has nothing to reject). *)
Definition save_loaded (i : nat) (url : Url) (coll : list Url) : option (list Url) :=
  if validate url then Some (<[i := url]> coll) else None.

(** [Url.countDocuments({})] *)
Definition countDocuments (coll : list Url) : Z := Z.of_nat (length coll).

(** [Url.aggregate([{ $group: { _id: null, total: { $sum: '$clicks' } } }])]:
    one group when the collection has a document, none otherwise.  Each
    result is represented by its [total]. *)
Definition aggregate_total (coll : list Url) : list Z :=
  match coll with
  |[] => []
  | _ => [foldr (fun url total => clicks url + total) 0 coll]
  end.

(** The sum of the [clicks] of all documents, as the specification words
    the total that [stats] reports. *)
Definition sumClicks (coll : list Url) : Z := foldr Z.add 0 (clicks <$> coll).

(** [url.clicks += 1; url.lastAccessed = new Date()] at clock reading
    [now], on a document loaded from the collection. *)
Definition visit (now : Z) (url : Url) : Url :=
  {| originalUrl := originalUrl url;
     shortCode := shortCode url;
     clicks := JS.add1 (clicks url);
     createdAt := createdAt url;
     lastAccessed := Some now |}.

(** The document [url] after [n] more visits, the last of them at [t]. *)
Definition visited (url : Url) (n : Z) (t : Z) : Url :=
  {| originalUrl := originalUrl url;
     shortCode := shortCode url;
     clicks := clicks url + n;
     createdAt := createdAt url;
     lastAccessed := Some t |}.

End Model.

Import Model.

(** ** The routes ([server.js]) *)

Inductive Body : Type :=
| error (message : string)
| shortened (originalUrl shortUrl shortCode : string)
| redirect (location : string)
| statistics (totalUrls totalClicks : Z).

Record Response : Type := mkResponse { status : Z; body : Body }.

(** The state the routes act on: the collection and the number of calls made
    to [shortid.generate] so far. *)
Record World : Type := mkWorld { urls : list Url; generated : nat }.

Definition initial : World := {| urls := []; generated := 0 |}.

(** The responses by the names the specification gives them. *)
Definition MissingUrl : Response := {| status := 400; body := error "URL is required" |}.
Definition InvalidUrl : Response := {| status := 400; body := error "Invalid URL format" |}.
Definition NotFound : Response := {| status := 404; body := error "Short URL not found" |}.
Definition ServerError : Response := {| status := 500; body := error "Server error" |}.

(** A request to one of the three routes.  A [POST /api/shorten] comes with
    the number of rounds its loop is run for, a [GET /:shortCode] with its
    Referrer header, if it has one. *)
Inductive Request : Type :=
| POST_shorten (fuel : nat) (now : Z) (originalUrl : option string)
| GET_shortCode (now : Z) (referrer : option string) (shortCode : string)
| GET_stats.

(** ** The admin listing ([GET /api/admin/urls]) *)

Module Admin.

(** An element of [urlsWithFullData]. *)
Record UrlWithFullData : Type := mkFull {
  _id : nat;
  originalUrl : string;
  shortUrl : string;
  shortCode : string;
  clicks : Z;
  createdAt : Z;
  lastAccessed : option Z
}.

(** [res.json(urlsWithFullData)] *)
Record Listing : Type := mkListing { status : Z; body : list UrlWithFullData }.

(** The document whose fields an element carries. *)
Definition document (e : UrlWithFullData) : Url :=
  mkUrl (originalUrl e) (shortCode e) (clicks e) (createdAt e) (lastAccessed e).

End Admin.

(** [a] comes before [b] under [sort({ createdAt: -1 })]. *)
Definition newer (a b : nat * Url) : Prop := createdAt b.2 <= createdAt a.2.

#[global] Instance newer_dec : RelDecision newer.
Proof. intros a b. unfold newer. apply _. Defined.

(** [Url.find({}).sort({ createdAt: -1 }).select(...)]: every document, with
    its position for [_id], newest first.  The selection names all the other
    paths of the schema, so nothing is dropped.  The database leaves the
    order among documents of equal [createdAt] open; the merge sort fixes
    one such order. *)
Definition find_sorted (coll : list Url) : list (nat * Url) :=
  merge_sort newer (imap pair coll).

(** A host that names a machine: a non-empty domain or an IP address. *)
Definition network_host (h : URL.Host) : bool :=
  match h with
  | URL.Domain d => negb (bool_decide (d = ""))
  | URL.IPv4 _ | URL.IPv6 _ => true
  | URL.OpaqueHost _ | URL.EmptyHost => false
  end.

(** A code point that may follow the first letter of a scheme. *)
Definition scheme_char (c : ascii) : bool :=
  Char.ascii_alphanumeric c || Units.eqc c "+"%char || Units.eqc c "-"%char
  || Units.eqc c "."%char.

(** ** Sample data for the worked examples *)

Module Example.

(** A platform without Unicode tables.  The hosts of the examples are ASCII
    and have no "xn--" label, so the function is never consulted. *)
Definition unicode_ToASCII : list ascii -> option (list ascii) := fun _ => None.

Definition BASE_URL : string := "http://localhost:3000".

(** Express 4 with encodeurl 1. *)
Definition release : Express.Release :=
  {| Express.back_alias := true; Express.encodeurl_1 := true |}.

(** A generator that returns six sample identifiers in turn, and a seventh
    ever after. *)
Definition shortid_generate (k : nat) : string :=
  nth k ["PPBqWA9"; "23TplPdS"; "46Juzcyx"; "dBvJIh-H"; "2WEKaVNO"; "7oet_d9Z"] "eWRhpRV".

(** A generator that returns one identifier over and over. *)
Definition stuck_generate (k : nat) : string := "PPBqWA9".

(** A collection with three documents. *)
Definition three_urls : list Url :=
  [ mkUrl "http://example.com" "PPBqWA9" 3 1000 (Some 5000);
    mkUrl "mailto:a@b.c" "23TplPdS" 0 2000 None;
    mkUrl "https://example.org/a?b=c" "46Juzcyx" 5 3000 (Some 4000) ].

(** A state with those documents, after three identifiers were drawn. *)
Definition world : World := {| urls := three_urls; generated := 3 |}.

(** A state whose one document holds a URL with a space in its path. *)
Definition spaced : World :=
  {| urls := [mkUrl "http://example.com/a b" "2WEKaVNO" 3 1000 None]; generated := 5 |}.

(** A visitor shortens a URL typed with a leading space, then the same URL
    without it, then two other URLs, follows the first code and asks for
    the statistics. *)
Definition requests : list Request :=
  [ POST_shorten 1 10 (Some " http://example.com");
    POST_shorten 1 11 (Some "http://example.com");
    POST_shorten 1 12 (Some "http://example.com/");
    POST_shorten 1 13 (Some "mailto:a@b.c");
    GET_shortCode 20 None "PPBqWA9";
    GET_stats ].

End Example.

Section Server.

(** The platform's Unicode ToASCII (see [URL.domain_to_ASCII]). *)
Variable unicode_ToASCII : list ascii -> option (list ascii).

(** [process.env.BASE_URL || 'http://localhost:3000'] *)
Variable BASE_URL : string.

(** [shortid.generate()]: the package is an external dependency with hidden
    state and randomness.  [shortid_generate k] is what its call number [k]
    returns; any behaviour of the package is one such sequence. *)
Variable shortid_generate : nat -> string.

(** The release of Express the service runs on. *)
Variable release : Express.Release.

Definition isValidUrl (string : string) : bool :=
  match URL.basic_URL_parser unicode_ToASCII string with
  | Some _ => true
  | None => false
  end.

Definition json_url (code : Z) (url : Url) : Response :=
  {| status := code;
     body := shortened (originalUrl url) (BASE_URL ++ "/" ++ shortCode url) (shortCode url) |}.

(** The loop [while (!isUnique)].  It has no exit other than a candidate
    that [findOne] does not find; [fuel] bounds the rounds the model runs,
    and [None] says the loop is still running after [fuel] rounds.  The
    result is the candidate and the number of calls of the generator. *)
Fixpoint generate_unique (fuel : nat) (calls : nat) (coll : list Url)
  : option (string * nat) :=
  match fuel with
  | O => None
  | S fuel =>
      let shortCode := shortid_generate calls in
      match findOne_shortCode shortCode coll with
      | None => Some (shortCode, S calls)
      | Some _ => generate_unique fuel (S calls) coll
      end
  end.

(** [POST /api/shorten] with [req.body.originalUrl], a string or absent.
    [None] as a result: the handler has not answered within [fuel] rounds of
    its loop. *)
Definition shorten (fuel : nat) (now : Z) (originalUrl : option string) (w : World)
  : option (Response * World) :=
  match originalUrl with
  | None => Some (MissingUrl, w)
  | Some originalUrl =>
      if bool_decide (originalUrl = "") then Some (MissingUrl, w)
      else if negb (isValidUrl originalUrl) then Some (InvalidUrl, w)
      else
        match findOne_originalUrl originalUrl (urls w) with
        | Some (_, url) => Some (json_url 200 url, w)
        | None =>
            '(shortCode, calls) ← generate_unique fuel (generated w) (urls w);
            let url := new_Url now originalUrl shortCode in
            match save_new url (urls w) with
            | Some coll => Some (json_url 201 url, {| urls := coll; generated := calls |})
            | None => Some (ServerError, {| urls := urls w; generated := calls |})
            end
        end
  end.

(** [res.redirect(url)]: the answer 302 whose [Location] is what
    [res.location] makes of [url]. *)
Definition res_redirect (referrer : option string) (url : string) : Response :=
  {| status := 302; body := redirect (Express.location release referrer url) |}.

(** [GET /:shortCode], for a request with the header [referrer]. *)
Definition resolve (now : Z) (referrer : option string) (shortCode : string) (w : World)
  : Response * World :=
  match findOne_shortCode shortCode (urls w) with
  | None => (NotFound, w)
  | Some (i, url) =>
      let url := visit now url in
      match save_loaded i url (urls w) with
      | Some coll =>
          (res_redirect referrer (originalUrl url),
           {| urls := coll; generated := generated w |})
      | None => (ServerError, w)
      end
  end.

(** [GET /api/admin/stats] *)
Definition stats (w : World) : Response * World :=
  let totalUrls := countDocuments (urls w) in
  let totalClicks := aggregate_total (urls w) in
  ({| status := 200;
      body := statistics totalUrls
                match totalClicks with
                | total :: _ => if total =? 0 then 0 else total
                | [] => 0
                end |},
   w).

(** *** Sequences of requests *)

Definition handle (req : Request) (w : World) : option (Response * World) :=
  match req with
  | POST_shorten fuel now originalUrl => shorten fuel now originalUrl w
  | GET_shortCode now referrer shortCode => Some (resolve now referrer shortCode w)
  | GET_stats => Some (stats w)
  end.

(** The responses to [reqs], handled one after the other, and the state
    they leave; [None] when a handler does not answer. *)
Fixpoint run (reqs : list Request) (w : World) : option (list Response * World) :=
  match reqs with
  | [] => Some ([], w)
  | req :: reqs =>
      '(r, w) ← handle req w;
      '(log, w) ← run reqs w;
      Some (r :: log, w)
  end.

Definition reachable (w : World) : Prop :=
  exists reqs log, run reqs initial = Some (log, w).

(** [resolve] once per visit of [visits], in order; a visit is the clock
    reading and the Referrer header of its request. *)
Fixpoint resolve_each (visits : list (Z * option string)) (shortCode : string) (w : World)
  : list Response * World :=
  match visits with
  | [] => ([], w)
  | (now, referrer) :: visits =>
      let '(r, w) := resolve now referrer shortCode w in
      let '(log, w) := resolve_each visits shortCode w in
      (r :: log, w)
  end.

(** [GET /api/admin/urls] *)
Definition admin_urls (w : World) : Admin.Listing * World :=
  let urls := find_sorted (urls w) in
  let urlsWithFullData :=
    (fun '(i, url) =>
       {| Admin._id := i;
          Admin.originalUrl := originalUrl url;
          Admin.shortUrl := BASE_URL ++ "/" ++ shortCode url;
          Admin.shortCode := shortCode url;
          Admin.clicks := clicks url;
          Admin.createdAt := createdAt url;
          Admin.lastAccessed := lastAccessed url |}) <$> urls in
  ({| Admin.status := 200; Admin.body := urlsWithFullData |}, w).

(** *** The handlers between their [await]s

    A handler gives way to other requests at each [await].  [resolve] reads
    the document ([findOne]) and later writes it back ([save]); [shorten]
    looks the URL up and later inserts.  Each is split here at that point;
    run back to back the two halves are the handler. *)

(** [GET /:shortCode] up to the end of [await Url.findOne({ shortCode })]:
    the document the handler holds from then on. *)
Definition resolve_load (shortCode : string) (w : World) : option (nat * Url) :=
  findOne_shortCode shortCode (urls w).

(** The rest of [GET /:shortCode], run on the state of that later moment. *)
Definition resolve_save (now : Z) (referrer : option string)
    (loaded : option (nat * Url)) (w : World) : Response * World :=
  match loaded with
  | None => (NotFound, w)
  | Some (i, url) =>
      let url := visit now url in
      match save_loaded i url (urls w) with
      | Some coll =>
          (res_redirect referrer (originalUrl url),
           {| urls := coll; generated := generated w |})
      | None => (ServerError, w)
      end
  end.

(** What [POST /api/shorten] knows after [await Url.findOne({ originalUrl })]:
    it has answered, or it goes on to insert [originalUrl]. *)
Inductive Looked : Type :=
| answered (r : Response)
| to_insert (originalUrl : string).

Definition shorten_lookup (originalUrl : option string) (w : World) : Looked :=
  match originalUrl with
  | None => answered MissingUrl
  | Some originalUrl =>
      if bool_decide (originalUrl = "") then answered MissingUrl
      else if negb (isValidUrl originalUrl) then answered InvalidUrl
      else
        match findOne_originalUrl originalUrl (urls w) with
        | Some (_, url) => answered (json_url 200 url)
        | None => to_insert originalUrl
        end
  end.

(** The rest of [POST /api/shorten], run on the state of that later
    moment. *)
Definition shorten_insert (fuel : nat) (now : Z) (looked : Looked) (w : World)
  : option (Response * World) :=
  match looked with
  | answered r => Some (r, w)
  | to_insert originalUrl =>
      '(shortCode, calls) ← generate_unique fuel (generated w) (urls w);
      let url := new_Url now originalUrl shortCode in
      match save_new url (urls w) with
      | Some coll => Some (json_url 201 url, {| urls := coll; generated := calls |})
      | None => Some (ServerError, {| urls := urls w; generated := calls |})
      end
  end.

(** How many answers of [log] have the status [code]. *)
Definition answers (code : Z) (log : list Response) : nat :=
  length (filter (fun r => status r = code) log).

(** A document that was never visited has no [lastAccessed], and only
    such. *)
Definition visits_recorded (url : Url) : Prop :=
  0 <= clicks url /\ (clicks url = 0 <-> lastAccessed url = None).

(** *** What the schema and the handlers maintain *)

(** What the database and the schema enforce on every write, whatever the
    handlers do and however their requests overlap: the unique index keeps
    the codes distinct, the [trim] setter keeps them trimmed, the validators
    keep the required strings non-empty. *)
Record enforced (coll : list Url) : Prop := mkEnforced {
  index_unique : NoDup (shortCode <$> coll);
  setter_applied : Forall (fun url => JS.trim (shortCode url) = shortCode url) coll;
  validators_passed : Forall (fun url => validate url = true) coll
}.

(** The unique index keeps the codes distinct, the [trim] setter keeps them
    trimmed, the validators keep the required strings non-empty, and
    [shorten] looks a URL up before it inserts it. *)
Record consistent (coll : list Url) : Prop := mkConsistent {
  codes_unique : NoDup (shortCode <$> coll);
  urls_unique : NoDup (originalUrl <$> coll);
  codes_trimmed : Forall (fun url => JS.trim (shortCode url) = shortCode url) coll;
  required_present : Forall (fun url => validate url = true) coll
}.

(** What a document is known by: its URL and its code. *)
Definition entry (url : Url) : string * string := (originalUrl url, shortCode url).

(** The five ways [shorten] answers. *)
Inductive ShortenCase (fuel : nat) (now : Z) (w : World)
  : option string -> Response -> World -> Prop :=
| case_missing input :
    input = None \/ input = Some "" ->
    ShortenCase fuel now w input MissingUrl w
| case_invalid u :
    u <> "" -> isValidUrl u = false ->
    ShortenCase fuel now w (Some u) InvalidUrl w
| case_found u i url :
    u <> "" -> isValidUrl u = true ->
    findOne_originalUrl u (urls w) = Some (i, url) ->
    ShortenCase fuel now w (Some u) (json_url 200 url) w
| case_created u candidate calls :
    u <> "" -> isValidUrl u = true ->
    findOne_originalUrl u (urls w) = None ->
    generate_unique fuel (generated w) (urls w) = Some (candidate, calls) ->
    validate (new_Url now u candidate) = true ->
    shortCode (new_Url now u candidate) ∉ (shortCode <$> urls w) ->
    ShortenCase fuel now w (Some u) (json_url 201 (new_Url now u candidate))
      {| urls := urls w ++ [new_Url now u candidate]; generated := calls |}
| case_rejected u candidate calls :
    u <> "" -> isValidUrl u = true ->
    findOne_originalUrl u (urls w) = None ->
    generate_unique fuel (generated w) (urls w) = Some (candidate, calls) ->
    save_new (new_Url now u candidate) (urls w) = None ->
    ShortenCase fuel now w (Some u) ServerError
      {| urls := urls w; generated := calls |}.

(** ** Facts about trimming *)

Local Close Scope string_scope.

(** ** Counting on Numbers *)

Lemma add1_exact n : - 2 ^ 53 <= n < 2 ^ 53 -> JS.add1 n = n + 1.
Proof. intros Hn. unfold JS.add1. by rewrite bool_decide_true. Qed.

Lemma add1_le n : n <= JS.add1 n.
Proof.
  unfold JS.add1. repeat case_bool_decide; [lia| |lia].
  destruct (n mod 4 =? 0); lia.
Qed.

Lemma add1_pos n : 0 <= n -> 0 < JS.add1 n.
Proof.
  intros Hn. pose proof (add1_le n). unfold JS.add1 in *.
  repeat case_bool_decide; [lia| |lia]. destruct (n mod 4 =? 0); lia.
Qed.

Lemma visit_visited now url :
  - 2 ^ 53 <= clicks url < 2 ^ 53 -> visit now url = visited url 1 now.
Proof. intros Hn. unfold visit, visited. by rewrite add1_exact. Qed.

Lemma validate_visit now url : validate (visit now url) = validate url.
Proof. done. Qed.

(** ** The header of a redirect *)

Lemma encode_plain l :
  Units.all (fun c => Express.url_code_point release c && negb (Units.eqc c "%")) l = true ->
  Express.encode release l = l.
Proof.
  induction l as [|c rest IH]; [done|]. cbn [Units.all forallb].
  intros [[Hc Hpercent%negb_true_iff]%andb_true_iff Hrest]%andb_true_iff.
  cbn [Express.encode]. by rewrite Hpercent, Hc, (IH Hrest).
Qed.

Lemma encodeUrl_plain url :
  Express.plain release url = true -> Express.encodeUrl release url = url.
Proof.
  intros Hplain. unfold Express.encodeUrl.
  by rewrite (encode_plain _ Hplain), string_of_list_ascii_of_string.
Qed.

Lemma location_not_back referrer url :
  url <> "back"%string ->
  Express.location release referrer url = Express.encodeUrl release url.
Proof.
  intros Hurl. unfold Express.location.
  by rewrite (bool_decide_false _ Hurl), andb_false_r.
Qed.

Lemma drop_leading_head p l :
  match Units.drop_leading p l with [] => True | c :: _ => p c = false end.
Proof.
  induction l as [|c r IH]; simpl; [done|].
  destruct (p c) eqn:E; [apply IH | exact E].
Qed.

Lemma drop_leading_keeps p l x :
  x ∈ l -> p x = false -> x ∈ Units.drop_leading p l.
Proof.
  induction l as [|c r IH]; simpl; intros Hin Hx; [done|].
  destruct (p c) eqn:E; [|done].
  apply elem_of_cons in Hin as [->|Hin]; [congruence | auto].
Qed.

Lemma drop_leading_sub p l x : x ∈ Units.drop_leading p l -> x ∈ l.
Proof.
  induction l as [|c r IH]; simpl; [done|].
  destruct (p c); [|done]. intros H. right. auto.
Qed.

Lemma drop_trailing_cons p c r :
  p c = false ->
  Units.drop_trailing p (c :: r) = c :: Units.drop_trailing p r.
Proof. intros E. simpl. rewrite E. by destruct (Units.drop_trailing p r). Qed.

Lemma drop_trailing_keeps p l x :
  x ∈ l -> p x = false -> x ∈ Units.drop_trailing p l.
Proof.
  induction l as [|c r IH]; simpl; intros Hin Hx; [done|].
  apply elem_of_cons in Hin as [->|Hin].
  - rewrite Hx. destruct (Units.drop_trailing p r); left.
  - specialize (IH Hin Hx). destruct (Units.drop_trailing p r); [by inversion IH|].
    by right.
Qed.

Lemma drop_trailing_sub p l x : x ∈ Units.drop_trailing p l -> x ∈ l.
Proof.
  induction l as [|c r IH]; simpl; [done|].
  destruct (Units.drop_trailing p r) as [|y t].
  - destruct (p c); [by inversion 1|].
    intros ->%list_elem_of_singleton. left.
  - intros [->|H]%elem_of_cons; [left | right; auto].
Qed.

Lemma drop_trailing_idemp p l :
  Units.drop_trailing p (Units.drop_trailing p l) = Units.drop_trailing p l.
Proof.
  induction l as [|c r IH]; simpl; [done|].
  destruct (Units.drop_trailing p r) as [|y t] eqn:E.
  - destruct (p c) eqn:Ec; simpl; [done | by rewrite Ec].
  - change (Units.drop_trailing p (c :: y :: t)) with
      (match Units.drop_trailing p (y :: t) with
       | [] => if p c then [] else [c]
       | r' => c :: r'
       end).
    by rewrite IH.
Qed.

Lemma trim_units_idemp l : JS.trim_units (JS.trim_units l) = JS.trim_units l.
Proof.
  unfold JS.trim_units.
  pose proof (drop_leading_head Char.js_whitespace l) as Hhead.
  destruct (Units.drop_leading Char.js_whitespace l) as [|c r]; [done|].
  rewrite (drop_trailing_cons _ c r Hhead). simpl. rewrite Hhead.
  rewrite drop_trailing_cons by done. by rewrite drop_trailing_idemp.
Qed.

Lemma trim_idemp s : JS.trim (JS.trim s) = JS.trim s.
Proof.
  unfold JS.trim. rewrite list_ascii_of_string_of_list_ascii.
  by rewrite trim_units_idemp.
Qed.

Lemma trim_units_keeps l x :
  x ∈ l -> Char.js_whitespace x = false -> x ∈ JS.trim_units l.
Proof.
  intros. by apply drop_trailing_keeps; [apply drop_leading_keeps|].
Qed.

Lemma alpha_not_whitespace c :
  Char.ascii_alpha c = true -> Char.js_whitespace c = false.
Proof. by destruct c as [[] [] [] [] [] [] [] []]. Qed.

(** ** Facts about validation *)

Lemma strip_sub l x : x ∈ URL.strip l -> x ∈ l.
Proof.
  unfold URL.strip. intros [H _]%list_elem_of_In%filter_In.
  apply list_elem_of_In in H. eauto using drop_trailing_sub, drop_leading_sub.
Qed.

(** An accepted string starts, after stripping, with an ASCII letter. *)
Lemma isValidUrl_letter u :
  isValidUrl u = true ->
  exists c rest,
    URL.strip (list_ascii_of_string u) = c :: rest /\ Char.ascii_alpha c = true.
Proof.
  unfold isValidUrl, URL.basic_URL_parser, URL.scheme_start_state.
  destruct (URL.strip (list_ascii_of_string u)) as [|c rest]; [done|].
  destruct (Char.ascii_alpha c) eqn:E; [eauto | done].
Qed.

Lemma isValidUrl_trim_nonempty u : isValidUrl u = true -> JS.trim u <> ""%string.
Proof.
  intros (c & rest & Hstrip & Hc)%isValidUrl_letter Htrim.
  assert (c ∈ JS.trim_units (list_ascii_of_string u)) as Hin.
  { apply trim_units_keeps; [|by apply alpha_not_whitespace].
    apply strip_sub. rewrite Hstrip. left. }
  apply (f_equal list_ascii_of_string) in Htrim. unfold JS.trim in Htrim.
  rewrite list_ascii_of_string_of_list_ascii in Htrim. simpl in Htrim.
  rewrite Htrim in Hin. by inversion Hin.
Qed.

Lemma isValidUrl_nonempty u : isValidUrl u = true -> u <> ""%string.
Proof. by intros H ->. Qed.

Lemma scheme_state_colon buffer input scheme remaining :
  URL.scheme_state buffer input = Some (scheme, remaining) -> ":"%char ∈ input.
Proof.
  revert buffer. induction input as [|c rest IH]; intros buffer; simpl; [done|].
  destruct (_ || _); [intros H; right; by eapply IH|].
  destruct (Units.eqc c ":") eqn:Hc; [|done].
  apply Ascii.eqb_eq in Hc as ->. left.
Qed.

(** An accepted string has a colon. *)
Lemma isValidUrl_colon u :
  isValidUrl u = true -> ":"%char ∈ list_ascii_of_string u.
Proof.
  unfold isValidUrl, URL.basic_URL_parser, URL.scheme_start_state. intros Hvalid.
  apply strip_sub. destruct (URL.strip (list_ascii_of_string u)) as [|c rest]; [done|].
  destruct (Char.ascii_alpha c); [|done].
  destruct (URL.scheme_state _ rest) as [[scheme remaining]|] eqn:Hscheme; [|done].
  right. by eapply scheme_state_colon.
Qed.

(** The string that Express 4 reads as the Referrer is never stored for a
    string that was accepted. *)
Lemma isValidUrl_trim_not_back u : isValidUrl u = true -> JS.trim u <> "back"%string.
Proof.
  intros Hcolon%isValidUrl_colon Htrim.
  pose proof (trim_units_keeps _ _ Hcolon eq_refl) as Hin.
  apply (f_equal list_ascii_of_string) in Htrim. unfold JS.trim in Htrim.
  rewrite list_ascii_of_string_of_list_ascii in Htrim. rewrite Htrim in Hin.
  simpl in Hin. by repeat (apply elem_of_cons in Hin as [?|Hin]; [done|]); inversion Hin.
Qed.

(** ** Facts about the collection *)

Lemma findOne_originalUrl_Some value coll i url :
  findOne_originalUrl value coll = Some (i, url) ->
  coll !! i = Some url /\ originalUrl url = JS.trim value.
Proof. intros (? & ? & _)%list_find_Some. done. Qed.

Lemma findOne_originalUrl_None value coll :
  findOne_originalUrl value coll = None <-> JS.trim value ∉ originalUrl <$> coll.
Proof.
  unfold findOne_originalUrl. rewrite list_find_None, Forall_forall, list_elem_of_fmap.
  split.
  - intros H (url & Heq & Hin). by apply (H url).
  - intros H url Hin Heq. apply H. eauto.
Qed.

Lemma findOne_shortCode_Some value coll i url :
  findOne_shortCode value coll = Some (i, url) ->
  coll !! i = Some url /\ shortCode url = JS.trim value.
Proof. intros (? & ? & _)%list_find_Some. done. Qed.

Lemma findOne_shortCode_None value coll :
  findOne_shortCode value coll = None <-> JS.trim value ∉ shortCode <$> coll.
Proof.
  unfold findOne_shortCode. rewrite list_find_None, Forall_forall, list_elem_of_fmap.
  split.
  - intros H (url & Heq & Hin). by apply (H url).
  - intros H url Hin Heq. apply H. eauto.
Qed.

(** With distinct codes, the lookup of a stored code finds its document. *)
Lemma findOne_shortCode_stored coll i url :
  NoDup (shortCode <$> coll) ->
  coll !! i = Some url ->
  JS.trim (shortCode url) = shortCode url ->
  findOne_shortCode (shortCode url) coll = Some (i, url).
Proof.
  intros Hnd Hi Htrim. apply list_find_Some. split_and!; [done..|].
  intros j y Hj Hlt Heq. rewrite Htrim in Heq.
  assert (j = i); [|lia].
  eapply (NoDup_lookup _ _ _ (shortCode url) Hnd); rewrite list_lookup_fmap.
  - by rewrite Hj, <- Heq.
  - by rewrite Hi.
Qed.

Lemma save_new_Some url coll coll' :
  save_new url coll = Some coll' <->
  validate url = true /\ (shortCode url ∉ shortCode <$> coll) /\ coll' = (coll ++ [url])%list.
Proof.
  unfold save_new. split.
  - destruct (validate url); simpl; [|done].
    case_bool_decide; simpl; [done|]. by intros [= <-].
  - intros (-> & Hfresh & ->). simpl. by rewrite bool_decide_false.
Qed.

(** ** The case analysis of [shorten] *)

Lemma shorten_inv fuel now input w r w' :
  shorten fuel now input w = Some (r, w') ->
  ShortenCase fuel now w input r w'.
Proof.
  unfold shorten. destruct input as [u|]; [|intros [= <- <-]; constructor; auto].
  case_bool_decide as Hu; [intros [= <- <-]; subst; constructor; auto|].
  destruct (isValidUrl u) eqn:Hvalid; simpl; [|intros [= <- <-]; by constructor].
  destruct (findOne_originalUrl u (urls w)) as [[i url]|] eqn:Hfind.
  { intros [= <- <-]. by econstructor. }
  destruct (generate_unique fuel (generated w) (urls w)) as [[candidate calls]|] eqn:Hgen;
    simpl; [|done].
  destruct (save_new (new_Url now u candidate) (urls w)) as [coll|] eqn:Hsave;
    intros [= <- <-].
  - apply save_new_Some in Hsave as (? & ? & ->). by econstructor.
  - by econstructor.
Qed.

(** The cases of a call that has answered [r] and left [w']; the names of
    the facts of each case are fixed here. *)
Ltac shorten_cases H :=
  apply shorten_inv in H;
  inversion H as
    [ ? Hinput
    | ? ? Hinvalid
    | ? i url ? ? Hfind
    | ? candidate calls ? ? Hnone Hgen Hvalidate Hfresh
    | ? candidate calls ? ? Hnone Hgen Hsave ];
  subst; clear H.

(** The same for a URL known to pass validation: found, created or
    rejected by [save]. *)
Ltac shorten_valid_cases H Hvalid :=
  shorten_cases H;
  [ match goal with
    | Hin : _ \/ _ |- _ =>
        destruct Hin as [|[= ->]]; [done | by apply isValidUrl_nonempty in Hvalid]
    end
  | congruence
  | | | ].

(** ** The loop that looks for an unused code *)

(** If every candidate is taken the loop is still running after any number
    of rounds. *)
Lemma generate_unique_stuck coll calls :
  (forall j, is_Some (findOne_shortCode (shortid_generate (calls + j)) coll)) ->
  forall fuel, generate_unique fuel calls coll = None.
Proof.
  intros Htaken fuel. revert calls Htaken.
  induction fuel as [|fuel IH]; intros calls Htaken; simpl; [done|].
  destruct (Htaken 0%nat) as [x Hx]. rewrite Nat.add_0_r in Hx. rewrite Hx.
  apply IH. intros j. replace (S calls + j)%nat with (calls + S j)%nat by lia.
  apply Htaken.
Qed.

(** C3 (as amended): the loop has no ceiling of its own.  Run for [fuel]
    rounds, it has ended exactly when one of the first [fuel] candidates is
    not in the collection; it then returns the first such candidate, number
    [n], after [n + 1] calls of the generator, whatever [n] is. *)
Theorem generate_unique_first_unused fuel calls coll candidate calls' :
  generate_unique fuel calls coll = Some (candidate, calls') <->
  exists n : nat,
    (n < fuel)%nat /\ calls' = S (calls + n) /\
    candidate = shortid_generate (calls + n)%nat /\
    findOne_shortCode candidate coll = None /\
    forall j : nat, (j < n)%nat ->
      is_Some (findOne_shortCode (shortid_generate (calls + j)) coll).
Proof.
  revert calls. induction fuel as [|fuel IH]; intros calls; simpl.
  { split; [done | intros (n & ? & _); lia]. }
  destruct (findOne_shortCode (shortid_generate calls) coll) as [found|] eqn:Hfind.
  - rewrite IH. split.
    + intros (n & Hn & -> & -> & Hfree & Htaken). exists (S n).
      replace (calls + S n)%nat with (S calls + n)%nat by lia.
      split_and!; [lia | done | done | done |].
      intros [|j] Hj.
      * rewrite Nat.add_0_r, Hfind. eauto.
      * replace (calls + S j)%nat with (S calls + j)%nat by lia. apply Htaken. lia.
    + intros (n & Hn & -> & -> & Hfree & Htaken). destruct n as [|n].
      { rewrite Nat.add_0_r, Hfind in Hfree. done. }
      exists n. replace (S calls + n)%nat with (calls + S n)%nat by lia.
      split_and!; [lia | done | done | done |].
      intros j Hj. replace (calls + S n)%nat with (S calls + n)%nat by lia.
      replace (S calls + j)%nat with (calls + S j)%nat by lia. apply Htaken. lia.
  - split.
    + intros [= <- <-]. exists 0%nat. rewrite Nat.add_0_r.
      split_and!; [lia | done | done | done | lia].
    + intros (n & Hn & -> & -> & Hfree & Htaken). destruct n as [|n].
      { by rewrite Nat.add_0_r. }
      destruct (Htaken 0%nat) as [x Hx]; [lia|].
      rewrite Nat.add_0_r, Hfind in Hx. done.
Qed.

(** A call for a new valid URL answers only once its loop has ended. *)
Lemma shorten_new_answers fuel now u w r w' :
  isValidUrl u = true ->
  findOne_originalUrl u (urls w) = None ->
  shorten fuel now (Some u) w = Some (r, w') ->
  is_Some (generate_unique fuel (generated w) (urls w)).
Proof.
  intros Hvalid Hnew Hcase. shorten_valid_cases Hcase Hvalid; [congruence|eauto..].
Qed.

(** With enough fuel the loop returns the first candidate that is not
    stored. *)
Lemma generate_unique_returns n fuel calls coll :
  (forall j : nat, (j < n)%nat ->
     is_Some (findOne_shortCode (shortid_generate (calls + j)) coll)) ->
  findOne_shortCode (shortid_generate (calls + n)) coll = None ->
  (n < fuel)%nat ->
  generate_unique fuel calls coll = Some (shortid_generate (calls + n), S (calls + n)).
Proof.
  revert fuel calls. induction n as [|n IH]; intros fuel calls Htaken Hfree Hfuel;
    (destruct fuel as [|fuel]; [lia|]); simpl.
  - rewrite Nat.add_0_r in *. by rewrite Hfree.
  - destruct (Htaken 0%nat) as [x Hx]; [lia|]. rewrite Nat.add_0_r in Hx. rewrite Hx.
    replace (calls + S n)%nat with (S calls + n)%nat in * by lia.
    apply IH; [|done|lia].
    intros j Hj. replace (S calls + j)%nat with (calls + S j)%nat by lia.
    apply Htaken. lia.
Qed.

(** X2: [shorten] answers a new valid URL: once the generator returns, as
    its candidate number [n], an identifier that is not stored and not blank,
    any fuel above [n] gives the answer 201, and the document is appended
    under that identifier, trimmed. *)
Theorem shorten_creates n fuel now u w :
  isValidUrl u = true ->
  findOne_originalUrl u (urls w) = None ->
  (forall j : nat, (j < n)%nat ->
     is_Some (findOne_shortCode (shortid_generate (generated w + j)) (urls w))) ->
  findOne_shortCode (shortid_generate (generated w + n)) (urls w) = None ->
  JS.trim (shortid_generate (generated w + n)) <> ""%string ->
  (n < fuel)%nat ->
  shorten fuel now (Some u) w =
    Some (json_url 201 (new_Url now u (shortid_generate (generated w + n))),
          {| urls := urls w ++ [new_Url now u (shortid_generate (generated w + n))];
             generated := S (generated w + n) |}).
Proof.
  intros Hvalid Hnew Htaken Hfree Hblank Hfuel. unfold shorten.
  rewrite bool_decide_false by by apply isValidUrl_nonempty.
  rewrite Hvalid, Hnew. simpl.
  rewrite (generate_unique_returns n) by done. simpl.
  unfold save_new, validate. simpl.
  rewrite (bool_decide_false (JS.trim u = _)) by by apply isValidUrl_trim_nonempty.
  rewrite (bool_decide_false (JS.trim _ = ""%string)) by done.
  rewrite bool_decide_false by by apply findOne_shortCode_None.
  done.
Qed.

(** ** Consistency of the collection is maintained *)

Lemma consistent_initial : consistent (urls initial).
Proof. split; simpl; constructor. Qed.

Lemma consistent_created now u candidate coll :
  consistent coll ->
  findOne_originalUrl u coll = None ->
  validate (new_Url now u candidate) = true ->
  shortCode (new_Url now u candidate) ∉ (shortCode <$> coll) ->
  consistent (coll ++ [new_Url now u candidate]).
Proof.
  intros [Hcodes Hurls Htrim Hreq] Hnew%findOne_originalUrl_None Hvalidate Hfresh. split.
  - rewrite fmap_app. apply NoDup_app. split_and!; [done| |apply NoDup_singleton].
    intros c Hc ->%list_elem_of_singleton. done.
  - rewrite fmap_app. apply NoDup_app. split_and!; [done| |apply NoDup_singleton].
    intros o Ho ->%list_elem_of_singleton. done.
  - apply Forall_app. split; [done|]. apply Forall_singleton. simpl. apply trim_idemp.
  - apply Forall_app. split; [done|]. by apply Forall_singleton.
Qed.

Lemma resolve_entries now referrer code w :
  entry <$> urls (resolve now referrer code w).2 = entry <$> urls w.
Proof.
  unfold resolve. destruct (findOne_shortCode code (urls w)) as [[i url]|] eqn:Hfind;
    simpl; [|done].
  apply findOne_shortCode_Some in Hfind as [Hi _].
  unfold save_loaded. destruct (validate _); simpl; [|done].
  rewrite list_fmap_insert. apply list_insert_id.
  by rewrite list_lookup_fmap, Hi.
Qed.

Lemma validate_entry url url' : entry url' = entry url -> validate url' = validate url.
Proof. unfold entry, validate. by intros [= -> ->]. Qed.

Lemma entries_codes (coll : list Url) : shortCode <$> coll = snd <$> (entry <$> coll).
Proof. by rewrite <- list_fmap_compose. Qed.

Lemma entries_urls (coll : list Url) : originalUrl <$> coll = fst <$> (entry <$> coll).
Proof. by rewrite <- list_fmap_compose. Qed.

Lemma consistent_entries (coll coll' : list Url) :
  entry <$> coll' = entry <$> coll -> consistent coll -> consistent coll'.
Proof.
  intros Heq [Hcodes Hurls Htrim Hreq]. split.
  - by rewrite entries_codes, Heq, <- entries_codes.
  - by rewrite entries_urls, Heq, <- entries_urls.
  - apply (Forall_fmap shortCode (fun c => JS.trim c = c)).
    rewrite entries_codes, Heq, <- entries_codes. by apply Forall_fmap.
  - pose (ok := fun e : string * string =>
                  negb (bool_decide (e.1 = ""%string)) && negb (bool_decide (e.2 = ""%string))).
    apply (Forall_fmap entry (fun e => ok e = true)).
    rewrite Heq. by apply Forall_fmap.
Qed.

Lemma handle_consistent req w r w' :
  handle req w = Some (r, w') -> consistent (urls w) -> consistent (urls w').
Proof.
  destruct req as [fuel now input|now referrer code|]; simpl.
  - intros Hcase%shorten_inv Hw. destruct Hcase; simpl; try done.
    by apply consistent_created.
  - intros [= Heq]. replace w' with (resolve now referrer code w).2 by (by rewrite Heq).
    apply consistent_entries, resolve_entries.
  - unfold stats. by intros [= _ <-].
Qed.

(** Documents are never removed, and keep their URL and code. *)
Lemma handle_entries req w r w' :
  handle req w = Some (r, w') ->
  exists more, entry <$> urls w' = (entry <$> urls w) ++ more.
Proof.
  destruct req as [fuel now input|now referrer code|]; simpl.
  - intros Hcase%shorten_inv.
    destruct Hcase; simpl; try (exists []; by rewrite app_nil_r).
    eexists. by rewrite fmap_app.
  - intros [= Heq]. replace w' with (resolve now referrer code w).2 by (by rewrite Heq).
    exists []. by rewrite app_nil_r, resolve_entries.
  - unfold stats. intros [= _ <-]. exists []. by rewrite app_nil_r.
Qed.

Lemma run_inv reqs w log w' :
  run reqs w = Some (log, w') ->
  match reqs with
  | [] => log = [] /\ w' = w
  | req :: reqs =>
      exists r w1 log', handle req w = Some (r, w1) /\
        run reqs w1 = Some (log', w') /\ log = r :: log'
  end.
Proof.
  destruct reqs as [|req reqs]; simpl; [by intros [= <- <-]|].
  destruct (handle req w) as [[r w1]|] eqn:Hreq; simpl; [|done].
  destruct (run reqs w1) as [[log' w2]|] eqn:Hrun; simpl; [|done].
  intros [= <- <-]. by exists r, w1, log'.
Qed.

Lemma run_consistent reqs w log w' :
  run reqs w = Some (log, w') -> consistent (urls w) -> consistent (urls w').
Proof.
  revert w log. induction reqs as [|req reqs IH]; intros w log Hrun%run_inv Hw.
  - by destruct Hrun as [_ ->].
  - destruct Hrun as (r & w1 & log' & Hreq & Hrun & _).
    eauto using handle_consistent.
Qed.

Lemma run_entries reqs w log w' :
  run reqs w = Some (log, w') ->
  exists more, entry <$> urls w' = (entry <$> urls w) ++ more.
Proof.
  revert w log. induction reqs as [|req reqs IH]; intros w log Hrun%run_inv.
  - destruct Hrun as [_ ->]. exists []. by rewrite app_nil_r.
  - destruct Hrun as (r & w1 & log' & (m1 & H1)%handle_entries & (m2 & H2)%IH & _).
    exists (m1 ++ m2). by rewrite H2, H1, app_assoc.
Qed.

(** X1: every state the service can reach from the empty collection is
    consistent: in particular it holds at most one document per URL. *)
Lemma reachable_consistent w : reachable w -> consistent (urls w).
Proof.
  intros (reqs & log & Hrun). eapply run_consistent; [done | apply consistent_initial].
Qed.

(** ** Codes handed out by [shorten] *)

(** A response that carries a code either reports a stored document (200)
    or a document inserted under a code that was not stored (201). *)
Lemma handle_shortened req w r w' o s c :
  handle req w = Some (r, w') ->
  body r = shortened o s c ->
  (status r = 200 /\ (o, c) ∈ (entry <$> urls w) /\ w' = w) \/
  (status r = 201 /\ (c ∉ shortCode <$> urls w) /\
   entry <$> urls w' = (entry <$> urls w) ++ [(o, c)]).
Proof.
  destruct req as [fuel now input|now referrer code|]; simpl.
  - intros Hcase%shorten_inv. destruct Hcase; simpl; try done.
    + intros [= <- _ <-]. left. split_and!; [done| |done].
      match goal with
      | Hfind : findOne_originalUrl _ _ = Some _ |- _ =>
          apply findOne_originalUrl_Some in Hfind as [Hi _]
      end.
      apply list_elem_of_fmap. exists url. split; [done|].
      by eapply list_elem_of_lookup_2.
    + intros [= <- _ <-]. right. split_and!; [done|done|].
      by rewrite fmap_app.
  - unfold resolve. destruct (findOne_shortCode code (urls w)) as [[i url]|];
      [destruct (save_loaded _ _ _)|]; by intros [= <- _].
  - unfold stats. by intros [= <- _].
Qed.

Lemma run_shortened reqs w log w' r o s c :
  run reqs w = Some (log, w') ->
  r ∈ log ->
  body r = shortened o s c ->
  (o, c) ∈ (entry <$> urls w') /\
  (status r = 200 \/ status r = 201) /\
  (status r = 201 -> c ∉ (shortCode <$> urls w)).
Proof.
  revert w log. induction reqs as [|req reqs IH]; intros w log Hrun%run_inv Hin Hbody.
  { destruct Hrun as [-> _]. by inversion Hin. }
  destruct Hrun as (r0 & w1 & log' & Hreq & Hrun & ->).
  destruct (run_entries _ _ _ _ Hrun) as [more Hmore].
  apply elem_of_cons in Hin as [->|Hin].
  - destruct (handle_shortened _ _ _ _ _ _ _ Hreq Hbody)
      as [(Hst & Hmem & ->)|(Hst & Hfresh & Hentries)].
    + split_and!; [|by left|by rewrite Hst].
      rewrite Hmore. apply elem_of_app. by left.
    + split_and!; [|by right|done].
      rewrite Hmore, Hentries. apply elem_of_app. left. apply elem_of_app. right. left.
  - destruct (IH _ _ Hrun Hin Hbody) as (Hmem & Hst & Hfresh).
    split_and!; [done..|].
    intros H201 Hc. apply (Hfresh H201).
    destruct (handle_entries _ _ _ _ Hreq) as [m1 Hm1].
    rewrite entries_codes, Hm1, fmap_app, <- entries_codes.
    apply elem_of_app. by left.
Qed.

Lemma entries_same_code (coll : list Url) o1 o2 c :
  NoDup (shortCode <$> coll) ->
  (o1, c) ∈ (entry <$> coll) -> (o2, c) ∈ (entry <$> coll) -> o1 = o2.
Proof.
  intros Hnd (u1 & [= -> Hc1] & (i1 & Hi1)%list_elem_of_lookup_1)%list_elem_of_fmap
             (u2 & [= -> Hc2] & (i2 & Hi2)%list_elem_of_lookup_1)%list_elem_of_fmap.
  assert (i1 = i2) as ->.
  { eapply (NoDup_lookup _ _ _ c Hnd); rewrite list_lookup_fmap.
    - by rewrite Hi1, Hc1.
    - by rewrite Hi2, Hc2. }
  congruence.
Qed.

Lemma run_codes_distinct reqs w log w' i j r1 r2 o1 s1 c1 o2 s2 c2 :
  consistent (urls w) ->
  run reqs w = Some (log, w') ->
  (i < j)%nat -> log !! i = Some r1 -> log !! j = Some r2 ->
  body r1 = shortened o1 s1 c1 -> body r2 = shortened o2 s2 c2 ->
  c1 = c2 -> o1 = o2 /\ status r2 = 200.
Proof.
  revert w log i j.
  induction reqs as [|req reqs IH]; intros w log i j Hw Hrun%run_inv Hij Hi Hj Hb1 Hb2 <-.
  { destruct Hrun as [-> _]. done. }
  destruct Hrun as (r0 & w1 & log' & Hreq & Hrun & ->).
  destruct j as [|j]; [lia|]. simpl in Hj.
  destruct i as [|i]; simpl in Hi.
  - injection Hi as ->.
    assert ((o1, c1) ∈ (entry <$> urls w1)) as Hmem1.
    { destruct (handle_shortened _ _ _ _ _ _ _ Hreq Hb1)
        as [(_ & Hmem & ->)|(_ & _ & ->)]; [done|].
      apply elem_of_app. right. left. }
    destruct (run_shortened _ _ _ _ _ _ _ _ Hrun (list_elem_of_lookup_2 _ _ _ Hj) Hb2)
      as (Hmem2 & Hst & Hfresh).
    destruct Hst as [Hst|Hst].
    + split; [|done].
      destruct (run_entries _ _ _ _ Hrun) as [more Hmore].
      apply (entries_same_code (urls w') o1 o2 c1); [|by rewrite Hmore; apply elem_of_app; left|done].
      apply (run_consistent _ _ _ _ Hrun). eauto using handle_consistent.
    + exfalso. apply (Hfresh Hst). rewrite entries_codes.
      apply list_elem_of_fmap. by exists (o1, c1).
  - apply (IH w1 log' i j); eauto using handle_consistent with lia.
Qed.

(** C2 (as amended): from the empty collection, after any sequence of
    requests, no two documents share a [shortCode]; a document is inserted
    only under a code that is not stored at that moment; and of two calls of
    [shorten] that returned the same code, the later one found the document
    of the same stored URL (it did not insert): calls whose answers carry
    distinct URLs, and calls that insert, return pairwise distinct codes.
    The unique index does the same in any collection, however it was
    reached: [save] rejects a code that is stored, and the second half of
    [shorten], run on any state with distinct codes, leaves the codes
    distinct. *)
Theorem shortCode_unique reqs log w :
  run reqs initial = Some (log, w) ->
  NoDup (shortCode <$> urls w) /\
  (forall fuel now input r w',
     shorten fuel now input w = Some (r, w') -> status r = 201 ->
     exists url, urls w' = urls w ++ [url] /\ (shortCode url ∉ shortCode <$> urls w) /\
                 NoDup (shortCode <$> urls w')) /\
  (forall i j r1 r2 o1 s1 c1 o2 s2 c2,
     (i < j)%nat -> log !! i = Some r1 -> log !! j = Some r2 ->
     body r1 = shortened o1 s1 c1 -> body r2 = shortened o2 s2 c2 ->
     (o1 <> o2 \/ status r2 = 201) -> c1 <> c2) /\
  (forall doc coll,
     shortCode doc ∈ shortCode <$> coll -> save_new doc coll = None) /\
  (forall fuel now looked w0 r w0',
     NoDup (shortCode <$> urls w0) ->
     shorten_insert fuel now looked w0 = Some (r, w0') ->
     NoDup (shortCode <$> urls w0')).
Proof.
  intros Hrun.
  pose proof (run_consistent _ _ _ _ Hrun consistent_initial) as Hw.
  split_and!; [apply Hw | | | |].
  - intros fuel now input r w' Hcase%shorten_inv H201.
    destruct Hcase; try done. eexists. split_and!; [done..|].
    by apply (consistent_created now u candidate (urls w)).
  - intros i j r1 r2 o1 s1 c1 o2 s2 c2 Hij Hi Hj Hb1 Hb2 Hdiff Hc.
    destruct (run_codes_distinct _ _ _ _ _ _ _ _ _ _ _ _ _ _
                consistent_initial Hrun Hij Hi Hj Hb1 Hb2 Hc) as [Ho Hst].
    destruct Hdiff as [Hdiff|Hdiff]; [done|congruence].
  - intros doc coll Hin. unfold save_new.
    by rewrite (bool_decide_true _ Hin), andb_false_r.
  - intros fuel now looked w0 r w0' Hnd. unfold shorten_insert.
    destruct looked as [r0|u]; [by intros [= _ <-]|].
    destruct (generate_unique fuel (generated w0) (urls w0)) as [[candidate calls]|];
      simpl; [|done].
    destruct (save_new _ _) as [coll|] eqn:Hsave; intros [= _ <-]; simpl; [|done].
    apply save_new_Some in Hsave as (_ & Hfresh & ->).
    rewrite fmap_app. apply NoDup_app. split_and!; [done| |apply NoDup_singleton].
    intros c Hc ->%list_elem_of_singleton. done.
Qed.

(** ** Shortening the same URL again *)

Lemma shorten_found fuel now u w i url :
  isValidUrl u = true ->
  findOne_originalUrl u (urls w) = Some (i, url) ->
  shorten fuel now (Some u) w = Some (json_url 200 url, w).
Proof.
  intros Hvalid Hfind. unfold shorten.
  rewrite bool_decide_false by by apply isValidUrl_nonempty.
  by rewrite Hvalid, Hfind.
Qed.

Lemma findOne_originalUrl_new now u candidate coll :
  findOne_originalUrl u coll = None ->
  findOne_originalUrl u (coll ++ [new_Url now u candidate])
  = Some (length coll, new_Url now u candidate).
Proof.
  intros Hnone. unfold findOne_originalUrl in *.
  rewrite list_find_app_r by done. simpl. by rewrite decide_True.
Qed.

Lemma count_one {A} (f : A -> string) (l : list A) (x : string) :
  NoDup (f <$> l) -> x ∈ (f <$> l) ->
  length (filter (fun a => f a = x) l) = 1%nat.
Proof.
  induction l as [|a l IH]; simpl; [by inversion 2|].
  intros [Ha Hl]%NoDup_cons Hin. rewrite filter_cons.
  destruct (decide (f a = x)) as [<-|Hne]; simpl.
  - f_equal. apply length_zero_iff_nil, elem_of_nil_inv.
    intros b [Heq Hb]%list_elem_of_filter. apply Ha.
    apply list_elem_of_fmap. by exists b.
  - apply IH; [done|]. apply elem_of_cons in Hin as [?|?]; [congruence | done].
Qed.

Lemma findOne_originalUrl_stored u coll i url :
  NoDup (originalUrl <$> coll) ->
  coll !! i = Some url ->
  originalUrl url = JS.trim u ->
  findOne_originalUrl u coll = Some (i, url).
Proof.
  intros Hnd Hi Hurl. apply list_find_Some. split_and!; [done..|].
  intros j y Hj Hlt Heq.
  assert (j = i); [|lia].
  eapply (NoDup_lookup _ _ _ (JS.trim u) Hnd); rewrite list_lookup_fmap.
  - by rewrite Hj, <- Heq.
  - by rewrite Hi, <- Hurl.
Qed.

(** C1: when the collection has a document for [u] (a document whose
    [originalUrl] is [u] as the schema stores it), [shorten] of [u] answers
    200 with that document's [originalUrl], [shortCode] and the short URL
    made of the code, and leaves the state, every counter included, as it
    is, for any fuel.  So when a first call for [u] has answered 200 or 201
    with a code, every later call for [u] answers 200 with the same code
    without touching the state, and the collection holds exactly one
    document for [u]. *)
Theorem shorten_idempotent fuel now u w :
  isValidUrl u = true ->
  NoDup (originalUrl <$> urls w) ->
  (forall i url,
     urls w !! i = Some url -> originalUrl url = JS.trim u ->
     shorten fuel now (Some u) w
     = Some ({| status := 200;
                body := shortened (originalUrl url)
                          (BASE_URL ++ "/" ++ shortCode url)%string (shortCode url) |},
             w)) /\
  (forall r w1,
     shorten fuel now (Some u) w = Some (r, w1) -> status r <> 500 ->
     exists c,
       (status r = 200 \/ status r = 201) /\
       body r = shortened (JS.trim u) (BASE_URL ++ "/" ++ c)%string c /\
       (forall fuel' now',
          shorten fuel' now' (Some u) w1
          = Some ({| status := 200;
                     body := shortened (JS.trim u) (BASE_URL ++ "/" ++ c)%string c |},
                  w1)) /\
       length (filter (fun d => originalUrl d = JS.trim u) (urls w1)) = 1%nat).
Proof.
  intros Hvalid Hnd. split.
  { intros i url Hi Hurl.
    by rewrite (shorten_found fuel now u w i url Hvalid
                  (findOne_originalUrl_stored u _ i url Hnd Hi Hurl)). }
  intros r w1 Hcase Hok. shorten_valid_cases Hcase Hvalid; [| |done].
  - apply findOne_originalUrl_Some in Hfind as Hstored. destruct Hstored as [Hi Heq].
    exists (shortCode url). unfold json_url. rewrite Heq. split_and!; [by left | done | |].
    + intros. rewrite (shorten_found _ _ u _ i url Hvalid Hfind).
      unfold json_url. by rewrite Heq.
    + apply count_one; [done|]. apply list_elem_of_fmap. exists url.
      split; [done | by eapply list_elem_of_lookup_2].
  - exists (JS.trim candidate). split_and!; [by right | done | |].
    + intros. erewrite shorten_found; [|done|by apply findOne_originalUrl_new].
      done.
    + simpl. apply count_one.
      * rewrite fmap_app. apply NoDup_app. split_and!; [done| |apply NoDup_singleton].
        intros o Ho ->%list_elem_of_singleton. by apply findOne_originalUrl_None in Hnone.
      * rewrite fmap_app. apply elem_of_app. right. left.
Qed.

(** ** From a code back to its URL *)

Lemma resolve_found now referrer code w i url :
  findOne_shortCode code (urls w) = Some (i, url) ->
  validate url = true ->
  resolve now referrer code w =
    (res_redirect referrer (originalUrl url),
     {| urls := <[i := visit now url]> (urls w); generated := generated w |}).
Proof.
  intros Hfind Hreq. unfold resolve, save_loaded. rewrite Hfind.
  by rewrite validate_visit, Hreq.
Qed.

Lemma consistent_enforced coll : consistent coll -> enforced coll.
Proof. by intros [Hcodes _ Htrim Hreq]. Qed.

Lemma enforced_created now u candidate coll :
  enforced coll ->
  validate (new_Url now u candidate) = true ->
  JS.trim candidate ∉ shortCode <$> coll ->
  enforced (coll ++ [new_Url now u candidate]).
Proof.
  intros [Hcodes Htrim Hreq] Hvalidate Hfresh. split.
  - rewrite fmap_app. apply NoDup_app. split_and!; [done| |apply NoDup_singleton].
    intros c Hc ->%list_elem_of_singleton. done.
  - apply Forall_app. split; [done|]. apply Forall_singleton. simpl. apply trim_idemp.
  - apply Forall_app. split; [done|]. by apply Forall_singleton.
Qed.

(** C4 (as amended): the document of a valid URL [u] holds [u] trimmed, and
    the code that [shorten] returns for [u] redirects to what [encodeUrl]
    makes of [JS.trim u]: the [Location] is [u] itself exactly when that is
    [u], as it is when [u] has no white space around it and consists of URL
    code points without a "%".  The state before [shorten] is any state
    the database allows. *)
Theorem resolve_after_shorten fuel now now' referrer u w r w1 o s c :
  isValidUrl u = true ->
  enforced (urls w) ->
  shorten fuel now (Some u) w = Some (r, w1) ->
  body r = shortened o s c ->
  o = JS.trim u /\
  (resolve now' referrer c w1).1
  = {| status := 302; body := redirect (Express.encodeUrl release (JS.trim u)) |} /\
  ((resolve now' referrer c w1).1 = {| status := 302; body := redirect u |}
   <-> Express.encodeUrl release (JS.trim u) = u) /\
  (JS.trim u = u -> Express.plain release u = true ->
   (resolve now' referrer c w1).1 = {| status := 302; body := redirect u |}).
Proof.
  intros Hvalid Hw Hcase Hbody.
  assert (exists i url, findOne_shortCode c (urls w1) = Some (i, url)
                        /\ validate url = true
                        /\ originalUrl url = JS.trim u /\ o = JS.trim u)
    as (i & url & Hfind & Hreq & Hurl & ->).
  { shorten_valid_cases Hcase Hvalid; [| |done].
    - injection Hbody as <- _ <-.
      apply findOne_originalUrl_Some in Hfind as [Hi Ho].
      exists i, url. split_and!; [| |done..].
      + apply findOne_shortCode_stored; [apply Hw | done |].
        by apply (Forall_lookup_1 _ _ _ _ (setter_applied _ Hw) Hi).
      + by apply (Forall_lookup_1 _ _ _ _ (validators_passed _ Hw) Hi).
    - injection Hbody as <- _ <-.
      exists (length (urls w)), (new_Url now u candidate). split_and!; [|done..].
      pose proof (enforced_created now u candidate _ Hw Hvalidate Hfresh) as Hw1.
      apply (findOne_shortCode_stored _ _ (new_Url now u candidate)); [apply Hw1 | |].
      + simpl. by rewrite lookup_app_r, Nat.sub_diag.
      + simpl. apply trim_idemp. }
  rewrite (resolve_found _ _ _ _ _ _ Hfind Hreq). cbn [fst]. unfold res_redirect.
  rewrite Hurl, location_not_back by by apply isValidUrl_trim_not_back.
  split_and!; [done..| |].
  - split; [by intros [= ->] | by intros ->].
  - intros -> Hplain. by rewrite encodeUrl_plain.
Qed.

(** ** URLs that differ after trimming *)

(** C10 (as amended): the lookup compares the trimmed strings and applies
    no other normalisation.  Two valid URLs whose trimmed texts differ and
    that have no document yet each get a document of their own, under
    different codes, whenever the two calls succeed. *)
Theorem shorten_distinct_urls fuel1 now1 fuel2 now2 u1 u2 w r1 w1 r2 w2 :
  isValidUrl u1 = true -> isValidUrl u2 = true ->
  JS.trim u1 <> JS.trim u2 ->
  findOne_originalUrl u1 (urls w) = None ->
  findOne_originalUrl u2 (urls w) = None ->
  shorten fuel1 now1 (Some u1) w = Some (r1, w1) -> status r1 <> 500 ->
  shorten fuel2 now2 (Some u2) w1 = Some (r2, w2) -> status r2 <> 500 ->
  exists d1 d2,
    urls w2 = urls w ++ [d1; d2] /\
    r1 = json_url 201 d1 /\ r2 = json_url 201 d2 /\
    originalUrl d1 = JS.trim u1 /\ originalUrl d2 = JS.trim u2 /\
    shortCode d1 <> shortCode d2.
Proof.
  intros Hv1 Hv2 Hdiff Hn1 Hn2 Hcase1 Hok1 Hcase2 Hok2.
  shorten_valid_cases Hcase1 Hv1; [congruence| |done].
  rename candidate into candidate1, calls into calls1.
  clear Hnone Hgen Hvalidate Hfresh.
  shorten_valid_cases Hcase2 Hv2; [| |done]; simpl in *.
  - apply list_find_app_Some in Hfind as [Hfind|(_ & _ & Hfind)].
    + unfold findOne_originalUrl in Hn2. congruence.
    + apply list_find_Some in Hfind as (Hin%list_elem_of_lookup_2 & Heq & _).
      apply list_elem_of_singleton in Hin as ->. simpl in Heq. congruence.
  - exists (new_Url now1 u1 candidate1), (new_Url now2 u2 candidate).
    split_and!; [by rewrite <- app_assoc | done..|].
    intros Heq. apply Hfresh. rewrite fmap_app.
    apply elem_of_app. right. simpl in *. rewrite <- Heq. left.
Qed.

(** ** Counting visits *)

Lemma findOne_shortCode_insert code coll i url url' :
  findOne_shortCode code coll = Some (i, url) ->
  shortCode url' = shortCode url ->
  findOne_shortCode code (<[i := url']> coll) = Some (i, url').
Proof.
  intros (Hi & Hcode & Hfirst)%list_find_Some Heq.
  apply list_find_insert_Some. right. left.
  split_and!; [done | done | by eapply lookup_lt_Some | congruence | done].
Qed.

Lemma resolve_each_found visits code w i url :
  findOne_shortCode code (urls w) = Some (i, url) ->
  validate url = true ->
  - 2 ^ 53 <= clicks url ->
  clicks url + Z.of_nat (length visits) <= 2 ^ 53 ->
  (resolve_each visits code w).1
  = (fun visit => res_redirect visit.2 (originalUrl url)) <$> visits /\
  urls (resolve_each visits code w).2
  = match last visits with
    | Some visit => <[i := visited url (Z.of_nat (length visits)) visit.1]> (urls w)
    | None => urls w
    end /\
  generated (resolve_each visits code w).2 = generated w.
Proof.
  revert w url. induction visits as [|[t ref] visits IH]; intros w url Hfind Hreq Hlo Hhi.
  { done. }
  cbn [resolve_each]. rewrite (resolve_found _ _ _ _ _ _ Hfind Hreq).
  rewrite visit_visited by (cbn [length] in Hhi; lia).
  destruct (IH {| urls := <[i := visited url 1 t]> (urls w); generated := generated w |}
              (visited url 1 t)) as (Hlog & Hurls & Hgen);
    [simpl; by apply (findOne_shortCode_insert _ _ _ url) | exact Hreq | simpl; lia
    | cbn [length] in Hhi; simpl; lia |].
  destruct (resolve_each visits code _) as [log w'].
  cbn [fst snd originalUrl visited urls generated] in *.
  split_and!; [by rewrite Hlog | | done].
  rewrite Hurls. destruct visits as [|v visits]; [done|].
  change (last ((t, ref) :: v :: visits)) with (last (v :: visits)).
  destruct (last (v :: visits)) as [visit|] eqn:Hlast; [|by apply last_None in Hlast].
  rewrite list_insert_insert_eq. f_equal. unfold visited. simpl. f_equal.
  rewrite !Nat2Z.inj_succ. lia.
Qed.

(** C5 (as amended): [N >= 1] calls of [resolve] for the code of a stored
    document whose counter is at least [-2^53] and, with [N] added, at most
    [2^53].  They leave the collection as it was except for that document,
    whose [clicks] has grown by [N] and whose [lastAccessed] is the reading
    of the last call; its URL, code and creation date are as before.  Each
    call answers 302 with the [Location] that Express makes of the
    document's URL: the URL encoded, unless the URL is the string that
    Express 4 reads as the Referrer.  The collection is any that the
    database allows. *)
Theorem resolve_each_counts visits last referrer w i url :
  enforced (urls w) ->
  urls w !! i = Some url ->
  - 2 ^ 53 <= clicks url ->
  clicks url + Z.of_nat (S (length visits)) <= 2 ^ 53 ->
  (resolve_each (visits ++ [(last, referrer)]) (shortCode url) w).2
  = {| urls := <[i := {| originalUrl := originalUrl url;
                         shortCode := shortCode url;
                         clicks := clicks url + Z.of_nat (S (length visits));
                         createdAt := createdAt url;
                         lastAccessed := Some last |}]> (urls w);
       generated := generated w |} /\
  (resolve_each (visits ++ [(last, referrer)]) (shortCode url) w).1
  = (fun visit =>
       {| status := 302;
          body := redirect (Express.location release visit.2 (originalUrl url)) |})
      <$> (visits ++ [(last, referrer)]) /\
  (originalUrl url <> "back"%string ->
   (resolve_each (visits ++ [(last, referrer)]) (shortCode url) w).1
   = replicate (S (length visits))
       {| status := 302;
          body := redirect (Express.encodeUrl release (originalUrl url)) |}).
Proof.
  intros Hw Hi Hlo Hhi.
  destruct (resolve_each_found (visits ++ [(last, referrer)]) (shortCode url) w i url)
    as (Hlog & Hurls & Hgen).
  - apply findOne_shortCode_stored; [apply Hw | done |].
    by apply (Forall_lookup_1 _ _ _ _ (setter_applied _ Hw) Hi).
  - by apply (Forall_lookup_1 _ _ _ _ (validators_passed _ Hw) Hi).
  - done.
  - rewrite length_app. simpl. lia.
  - rewrite last_snoc, length_app in Hurls. cbn [length fst] in Hurls.
    rewrite Nat.add_1_r in Hurls.
    split_and!; [|done|].
    + destruct (resolve_each _ _ _) as [log [coll calls]]. simpl in *. by subst.
    + intros Hback. rewrite Hlog. unfold res_redirect.
      replace (S (length visits)) with (length (visits ++ [(last, referrer)]))
        by (rewrite length_app; simpl; lia).
      generalize (visits ++ [(last, referrer)]). intros l.
      induction l as [|v l IHl]; [done|].
      rewrite fmap_cons, location_not_back by done. cbn [length replicate].
      f_equal. exact IHl.
Qed.

(** C7 (as amended): the lookup trims the requested code, as the schema
    trims the stored ones.  [resolve] answers [NotFound] and leaves the
    state as it was exactly when no document has the requested code with
    the white space around it removed. *)
Theorem resolve_absent now referrer code w :
  (forall url, url ∈ urls w -> shortCode url <> JS.trim code) <->
  resolve now referrer code w = (NotFound, w).
Proof.
  unfold resolve. split.
  - intros Habsent.
    destruct (findOne_shortCode code (urls w)) as [[i url]|] eqn:Hfind; [|done].
    apply findOne_shortCode_Some in Hfind as [Hi Hcode].
    destruct (Habsent url); [by eapply list_elem_of_lookup_2 | done].
  - destruct (findOne_shortCode code (urls w)) as [[i url]|] eqn:Hfind.
    + by destruct (save_loaded _ _ _).
    + intros _ url Hin Hcode. apply findOne_shortCode_None in Hfind.
      apply Hfind. apply list_elem_of_fmap. by exists url.
Qed.

(** ** Statistics *)

Lemma aggregate_total_sum coll :
  aggregate_total coll = match coll with [] => [] | _ => [sumClicks coll] end.
Proof.
  destruct coll as [|url coll]; [done|]. unfold aggregate_total, sumClicks. f_equal.
  generalize (url :: coll). intros l. induction l as [|a l IH]; simpl; [done|].
  by rewrite IH.
Qed.


(** ** The admin listing *)

#[local] Instance newer_total : Total newer.
Proof. intros a b. unfold newer. lia. Qed.

#[local] Instance newer_trans : Transitive newer.
Proof. intros a b c. unfold newer. lia. Qed.

Lemma imap_pair_lookup (coll : list Url) i url :
  (i, url) ∈ imap pair coll <-> coll !! i = Some url.
Proof.
  rewrite elem_of_lookup_imap. split.
  - by intros (j & y & [= -> ->] & Hj).
  - intros Hi. by exists i, url.
Qed.

Lemma imap_pair_snd (coll : list Url) : (imap pair coll).*2 = coll.
Proof.
  apply list_eq. intros i. rewrite list_lookup_fmap, list_lookup_imap.
  by destruct (coll !! i).
Qed.

Lemma find_sorted_lookup coll i url :
  (i, url) ∈ find_sorted coll <-> coll !! i = Some url.
Proof. unfold find_sorted. by rewrite merge_sort_Permutation, imap_pair_lookup. Qed.

Lemma admin_urls_documents w :
  Admin.document <$> Admin.body (admin_urls w).1 = (find_sorted (urls w)).*2.
Proof.
  simpl. rewrite <- list_fmap_compose. apply list_fmap_ext.
  by intros _ [i []] _.
Qed.

(** X3: the listing answers 200 and changes nothing; it shows every
    document exactly once, each under its own position and with the short
    URL made of [BASE_URL] and its code, and no element is older than one
    that follows it. *)
Theorem admin_urls_newest_first w :
  (admin_urls w).2 = w /\
  Admin.status (admin_urls w).1 = 200 /\
  Admin.document <$> Admin.body (admin_urls w).1 ≡ₚ urls w /\
  StronglySorted (fun a b => Admin.createdAt b <= Admin.createdAt a)
    (Admin.body (admin_urls w).1) /\
  (forall e, e ∈ Admin.body (admin_urls w).1 ->
     urls w !! Admin._id e = Some (Admin.document e) /\
     Admin.shortUrl e = (BASE_URL ++ "/" ++ Admin.shortCode e)%string).
Proof.
  split_and!; [done | done | | |].
  - rewrite admin_urls_documents. unfold find_sorted.
    by rewrite merge_sort_Permutation, imap_pair_snd.
  - simpl. eapply StronglySorted_fmap; [|apply (StronglySorted_merge_sort newer)].
    by intros [i a] [j b].
  - simpl. intros e ([i url] & -> & Hin)%list_elem_of_fmap. simpl.
    apply find_sorted_lookup in Hin. by destruct url.
Qed.

(** X4: in a collection that the database allows every element of the
    listing can be followed: [resolve] of its code answers 302 with its
    URL, encoded, for [Location]. *)
Theorem admin_urls_resolvable now referrer w e :
  enforced (urls w) ->
  e ∈ Admin.body (admin_urls w).1 ->
  Admin.originalUrl e <> "back"%string ->
  (resolve now referrer (Admin.shortCode e) w).1
  = {| status := 302;
       body := redirect (Express.encodeUrl release (Admin.originalUrl e)) |}.
Proof.
  intros Hw ([i url] & -> & Hi%find_sorted_lookup)%list_elem_of_fmap. simpl.
  intros Hback.
  rewrite (resolve_found now referrer (shortCode url) w i url).
  - cbn [fst]. unfold res_redirect. by rewrite location_not_back.
  - apply findOne_shortCode_stored; [apply Hw | done |].
    by apply (Forall_lookup_1 _ _ _ _ (setter_applied _ Hw) Hi).
  - by apply (Forall_lookup_1 _ _ _ _ (validators_passed _ Hw) Hi).
Qed.

(** X5: a URL shortened at a clock reading later than the creation of
    every stored document heads the listing from then on: the first element
    is the new document, with the code that [shorten] returned. *)
Theorem admin_urls_after_shorten fuel now u w r w' :
  shorten fuel now (Some u) w = Some (r, w') ->
  status r = 201 ->
  (forall url, url ∈ urls w -> createdAt url < now) ->
  exists e rest,
    Admin.body (admin_urls w').1 = e :: rest /\
    Admin._id e = length (urls w) /\
    Admin.originalUrl e = JS.trim u /\
    Admin.createdAt e = now /\
    Admin.clicks e = 0 /\
    Admin.lastAccessed e = None /\
    body r = shortened (Admin.originalUrl e) (Admin.shortUrl e) (Admin.shortCode e).
Proof.
  intros Hcase H201 Hnew. shorten_cases Hcase; try done. clear H201.
  set (d := new_Url now u candidate).
  assert ((length (urls w), d) ∈ find_sorted (urls w ++ [d])) as Hd.
  { apply find_sorted_lookup. rewrite lookup_app_r by lia. by rewrite Nat.sub_diag. }
  pose proof (StronglySorted_merge_sort newer (imap pair (urls w ++ [d]))) as Hsorted.
  fold (find_sorted (urls w ++ [d])) in Hsorted.
  assert (exists rest, find_sorted (urls w ++ [d]) = (length (urls w), d) :: rest)
    as [rest Hrest].
  { destruct (find_sorted (urls w ++ [d])) as [|[i x] rest] eqn:Hl; [by inversion Hd|].
    exists rest. f_equal.
    assert ((i, x) ∈ find_sorted (urls w ++ [d])) as Hi by (rewrite Hl; left).
    apply find_sorted_lookup, lookup_app_Some in Hi as [Hi|[Hle Hi]].
    - exfalso. apply elem_of_cons in Hd as [[= <- <-]|Hd].
      + apply lookup_lt_Some in Hi. lia.
      + apply StronglySorted_cons in Hsorted as [Hall _].
        pose proof (proj1 (Forall_forall _ _) Hall _ Hd) as Hnewer.
        unfold newer in Hnewer. simpl in Hnewer.
        pose proof (Hnew x (list_elem_of_lookup_2 _ _ _ Hi)). lia.
    - apply list_lookup_singleton_Some in Hi as [Hi ->]. f_equal. lia. }
  simpl. rewrite Hrest. simpl. by eexists _, _.
Qed.

(** ** What a sequence of requests adds up to *)

Lemma sumClicks_app coll url : sumClicks (coll ++ [url]) = sumClicks coll + clicks url.
Proof.
  induction coll as [|a coll IH]; [unfold sumClicks; simpl; lia|].
  change (sumClicks ((a :: coll) ++ [url])) with (clicks a + sumClicks (coll ++ [url])).
  change (sumClicks (a :: coll)) with (clicks a + sumClicks coll). lia.
Qed.

Lemma sumClicks_visited coll i url n t :
  coll !! i = Some url ->
  sumClicks (<[i := visited url n t]> coll) = sumClicks coll + n.
Proof.
  revert i. induction coll as [|a coll IH]; intros [|i] Hi; try done.
  - injection Hi as ->. unfold sumClicks. simpl. lia.
  - change (sumClicks (<[S i := visited url n t]> (a :: coll)))
      with (clicks a + sumClicks (<[i := visited url n t]> coll)).
    change (sumClicks (a :: coll)) with (clicks a + sumClicks coll).
    rewrite (IH i Hi). lia.
Qed.

Lemma resolve_inv now referrer code w r w' :
  resolve now referrer code w = (r, w') ->
  (status r = 404 /\ w' = w /\ findOne_shortCode code (urls w) = None) \/
  (status r = 500 /\ w' = w) \/
  (exists i url,
     findOne_shortCode code (urls w) = Some (i, url) /\
     r = res_redirect referrer (originalUrl url) /\
     w' = {| urls := <[i := visit now url]> (urls w); generated := generated w |}).
Proof.
  unfold resolve, save_loaded.
  destruct (findOne_shortCode code (urls w)) as [[i url]|]; [|intros [= <- <-]; by left].
  destruct (validate _); intros [= <- <-]; [|right; by left].
  right. right. by exists i, url.
Qed.

Lemma answers_cons code r log :
  answers code (r :: log)
  = ((if bool_decide (status r = code) then 1 else 0) + answers code log)%nat.
Proof.
  unfold answers. rewrite filter_cons. by case_bool_decide; rewrite ?decide_True, ?decide_False by done.
Qed.

(** Counting the one answer of a request by its status. *)
Ltac count_answer :=
  rewrite !answers_cons; change (answers 201 []) with 0%nat;
  change (answers 302 []) with 0%nat;
  repeat case_bool_decide; simpl in *; lia.

Lemma handle_totals req w r w' bound :
  handle req w = Some (r, w') ->
  0 <= bound ->
  (status r = 302 -> bound < 2 ^ 53) ->
  Forall (fun url => - 2 ^ 53 <= clicks url <= bound) (urls w) ->
  length (urls w') = (length (urls w) + answers 201 [r])%nat /\
  sumClicks (urls w') = sumClicks (urls w) + Z.of_nat (answers 302 [r]) /\
  Forall (fun url => - 2 ^ 53 <= clicks url <= bound + Z.of_nat (answers 302 [r])) (urls w').
Proof.
  intros Hreq Hbound Hroom Hw.
  assert (Forall (fun url => - 2 ^ 53 <= clicks url <= bound + Z.of_nat (answers 302 [r]))
            (urls w)) as Hw'.
  { eapply Forall_impl; [exact Hw|]. simpl. intros. lia. }
  destruct req as [fuel now input|now referrer code|]; cbn [handle] in Hreq.
  - shorten_cases Hreq; cbn [urls] in *;
      rewrite ?length_app, ?sumClicks_app; (split_and!; [count_answer..|]); try done.
    apply Forall_app. split; [done|]. apply Forall_singleton. simpl. lia.
  - injection Hreq as Hres.
    destruct (resolve_inv _ _ _ _ _ _ Hres)
      as [(Hst & -> & _)|[(Hst & ->)|(i & url & Hfind & -> & ->)]].
    + split_and!; [count_answer..|done].
    + split_and!; [count_answer..|done].
    + apply findOne_shortCode_Some in Hfind as [Hi _]. cbn [urls].
      pose proof (Forall_lookup_1 _ _ _ _ Hw Hi) as Hurl. simpl in Hurl.
      specialize (Hroom eq_refl).
      rewrite visit_visited by lia.
      rewrite length_insert, (sumClicks_visited _ _ _ _ _ Hi).
      split_and!; [count_answer..|].
      apply Forall_insert; [done|]. simpl. rewrite answers_cons. simpl. lia.
  - unfold stats in Hreq. injection Hreq as <- <-. split_and!; [count_answer..|done].
Qed.

Lemma run_totals reqs w log w' bound :
  run reqs w = Some (log, w') ->
  0 <= bound ->
  bound + Z.of_nat (answers 302 log) <= 2 ^ 53 ->
  Forall (fun url => - 2 ^ 53 <= clicks url <= bound) (urls w) ->
  length (urls w') = (length (urls w) + answers 201 log)%nat /\
  sumClicks (urls w') = sumClicks (urls w) + Z.of_nat (answers 302 log).
Proof.
  revert w log bound.
  induction reqs as [|req reqs IH]; intros w log bound Hrun%run_inv Hbound Hroom Hw.
  { destruct Hrun as [-> ->]. change (answers 201 []) with 0%nat.
    change (answers 302 []) with 0%nat. lia. }
  destruct Hrun as (r & w1 & log' & Hreq & Hrun & ->).
  rewrite answers_cons in Hroom.
  destruct (handle_totals _ _ _ _ bound Hreq Hbound) as (H1 & H2 & Hw1); [|done|].
  { intros Hst. rewrite bool_decide_true in Hroom by done. lia. }
  rewrite answers_cons in H1, H2, Hw1.
  change (answers 201 []) with 0%nat in H1. change (answers 302 []) with 0%nat in H2, Hw1.
  destruct (IH _ _ (bound + Z.of_nat ((if bool_decide (status r = 302) then 1 else 0) + 0))
              Hrun) as [H3 H4]; [lia | lia | done |].
  rewrite !answers_cons. lia.
Qed.

Lemma stats_reports w :
  (stats w).1
  = {| status := 200;
       body := statistics (Z.of_nat (length (urls w))) (sumClicks (urls w)) |}.
Proof.
  unfold stats. rewrite aggregate_total_sum. simpl. f_equal.
  destruct (urls w) as [|url coll]; [done|].
  by destruct (Z.eqb_spec (sumClicks (url :: coll)) 0) as [->|].
Qed.

Lemma clicks_le_sum coll :
  Forall (fun url => 0 <= clicks url) coll ->
  0 <= sumClicks coll /\
  Forall (fun url => - 2 ^ 53 <= clicks url <= sumClicks coll) coll.
Proof.
  induction coll as [|a coll IH]; [by split|].
  intros [Ha [Hsum Hcoll]%IH]%Forall_cons.
  change (sumClicks (a :: coll)) with (clicks a + sumClicks coll).
  split; [lia|]. apply Forall_cons. split; [lia|].
  eapply Forall_impl; [exact Hcoll|]. simpl. intros. lia.
Qed.

(** X6: the statistics keep count of the traffic, as long as the total
    stays in the range in which Numbers count exactly.  When no counter
    is negative and the sum of the counters with the number of 302 answers
    added does not exceed [2^53], [stats] reports after the requests,
    beyond what it reported before, one URL for every 201 answered and one
    click for every 302 answered. *)
Theorem stats_after_run reqs w log w' :
  run reqs w = Some (log, w') ->
  Forall (fun url => 0 <= clicks url) (urls w) ->
  sumClicks (urls w) + Z.of_nat (answers 302 log) <= 2 ^ 53 ->
  (stats w').1
  = {| status := 200;
       body := statistics (Z.of_nat (length (urls w)) + Z.of_nat (answers 201 log))
                          (sumClicks (urls w) + Z.of_nat (answers 302 log)) |}.
Proof.
  intros Hrun [Hsum Hw]%clicks_le_sum Hroom.
  destruct (run_totals _ _ _ _ _ Hrun Hsum Hroom Hw) as [Hlen Htotal].
  rewrite stats_reports, Hlen, Htotal. do 3 f_equal. lia.
Qed.

(** ** Documents stay *)

Lemma handle_keeps req w r w' k doc :
  handle req w = Some (r, w') ->
  urls w !! k = Some doc ->
  exists doc',
    urls w' !! k = Some doc' /\
    originalUrl doc' = originalUrl doc /\ shortCode doc' = shortCode doc /\
    createdAt doc' = createdAt doc /\ clicks doc <= clicks doc'.
Proof.
  intros Hreq Hk.
  assert (forall w0, urls w0 = urls w -> exists doc',
            urls w0 !! k = Some doc' /\
            originalUrl doc' = originalUrl doc /\ shortCode doc' = shortCode doc /\
            createdAt doc' = createdAt doc /\ clicks doc <= clicks doc') as Hsame.
  { intros w0 ->. exists doc. split_and!; [done..|lia]. }
  destruct req as [fuel now input|now referrer code|]; simpl in Hreq.
  - shorten_cases Hreq; try by apply Hsame.
    exists doc. simpl. split_and!; [|done..|lia]. by apply lookup_app_l_Some.
  - injection Hreq as Hres.
    destruct (resolve_inv _ _ _ _ _ _ Hres)
      as [(_ & -> & _)|[(_ & ->)|(j & found & Hfind & -> & ->)]]; [by apply Hsame..|].
    apply findOne_shortCode_Some in Hfind as [Hj _]. simpl.
    destruct (decide (k = j)) as [->|Hne].
    + assert (found = doc) as -> by congruence.
      exists (visit now doc). rewrite list_lookup_insert_eq by by eapply lookup_lt_Some.
      simpl. split_and!; [done..|apply add1_le].
    + exists doc. rewrite list_lookup_insert_ne by done. split_and!; [done..|lia].
  - unfold stats in Hreq. injection Hreq as _ <-. by apply Hsame.
Qed.

(** X7: no request removes or renames a document.  After any sequence of
    requests every document is still at its position with the same URL, code
    and creation date, and its [clicks] has not gone down. *)
Theorem run_keeps_documents reqs w log w' i url :
  run reqs w = Some (log, w') ->
  urls w !! i = Some url ->
  exists url',
    urls w' !! i = Some url' /\
    originalUrl url' = originalUrl url /\ shortCode url' = shortCode url /\
    createdAt url' = createdAt url /\ clicks url <= clicks url'.
Proof.
  revert w log url. induction reqs as [|req reqs IH]; intros w log url Hrun%run_inv Hi.
  { destruct Hrun as [_ ->]. exists url. split_and!; [done..|lia]. }
  destruct Hrun as (r & w1 & log' & Hreq & Hrun & _).
  destruct (handle_keeps _ _ _ _ _ _ Hreq Hi) as (url1 & Hi1 & Ho1 & Hc1 & Ht1 & Hn1).
  destruct (IH _ _ _ Hrun Hi1) as (url' & Hi' & Ho' & Hc' & Ht' & Hn').
  exists url'. split_and!; [done|congruence..|lia].
Qed.

(** ** Visits and [lastAccessed] *)

Lemma handle_visits req w r w' :
  handle req w = Some (r, w') ->
  Forall visits_recorded (urls w) -> Forall visits_recorded (urls w').
Proof.
  intros Hreq Hw. destruct req as [fuel now input|now referrer code|]; simpl in Hreq.
  - shorten_cases Hreq; try done. simpl.
    apply Forall_app. split; [done|]. apply Forall_singleton. by split.
  - injection Hreq as Hres.
    destruct (resolve_inv _ _ _ _ _ _ Hres)
      as [(_ & -> & _)|[(_ & ->)|(j & found & Hfind & -> & ->)]]; [done..|].
    apply findOne_shortCode_Some in Hfind as [Hj _]. simpl.
    apply Forall_insert; [done|].
    destruct (Forall_lookup_1 _ _ _ _ Hw Hj) as [Hpos _].
    pose proof (add1_pos _ Hpos).
    split; simpl; [lia|]. split; [lia | done].
  - unfold stats in Hreq. by injection Hreq as _ <-.
Qed.

(** X8: in every state reached from the empty collection, [clicks] is not
    negative, and a document has no [lastAccessed] exactly when its [clicks]
    is 0. *)
Theorem reachable_visits_recorded w :
  reachable w -> Forall visits_recorded (urls w).
Proof.
  intros (reqs & log & Hrun).
  assert (forall w0, Forall visits_recorded (urls w0) ->
            run reqs w0 = Some (log, w) -> Forall visits_recorded (urls w)) as Hgen.
  { clear Hrun. revert log. induction reqs as [|req reqs IH]; intros log w0 Hw0 Hrun%run_inv.
    - by destruct Hrun as [_ ->].
    - destruct Hrun as (r & w1 & log' & Hreq & Hrun & _).
      eauto using handle_visits. }
  apply (Hgen initial); [constructor | done].
Qed.

(** ** What [shorten] leaves alone *)

Lemma generate_unique_calls fuel calls coll candidate calls' :
  generate_unique fuel calls coll = Some (candidate, calls') -> (calls < calls')%nat.
Proof.
  revert calls. induction fuel as [|fuel IH]; intros calls; simpl; [done|].
  destruct (findOne_shortCode (shortid_generate calls) coll).
  - intros Hgen%IH. lia.
  - intros [= _ <-]. lia.
Qed.

(** X9: [shorten] never touches a stored document.  Unless it answers 201
    the collection is exactly what it was, also after a 400 or a 500; when
    it answers 201 the collection has one more document at its end, created
    at [now] with no clicks and no [lastAccessed], and the answer carries
    that document's URL and code.  The generator's count never goes back. *)
Theorem shorten_frame fuel now input w r w' :
  shorten fuel now input w = Some (r, w') ->
  (generated w <= generated w')%nat /\
  ((status r <> 201 /\ urls w' = urls w) \/
   (status r = 201 /\
    exists doc,
      urls w' = urls w ++ [doc] /\
      clicks doc = 0 /\ lastAccessed doc = None /\ createdAt doc = now /\
      body r = shortened (originalUrl doc) (BASE_URL ++ "/" ++ shortCode doc)%string
                 (shortCode doc))).
Proof.
  intros Hcase. shorten_cases Hcase; simpl; try (split; [lia|by left]).
  - apply generate_unique_calls in Hgen. split; [lia|]. right. split; [done|].
    by eexists.
  - apply generate_unique_calls in Hgen. split; [lia|]. by left.
Qed.

(** ** Insert, then look up *)

(** X10: a document that [save] has inserted is the one its code finds, at
    the end of the collection, and so does every string that is the code
    with white space around it; the lookup of a string whose trimmed form
    is not the code finds what it found before the insert. *)
Theorem save_new_then_findOne doc coll coll' :
  save_new doc coll = Some coll' ->
  JS.trim (shortCode doc) = shortCode doc ->
  findOne_shortCode (shortCode doc) coll' = Some (length coll, doc) /\
  (forall code, JS.trim code = shortCode doc ->
     findOne_shortCode code coll = None /\
     findOne_shortCode code coll' = Some (length coll, doc)) /\
  (forall code, JS.trim code <> shortCode doc ->
     findOne_shortCode code coll' = findOne_shortCode code coll).
Proof.
  intros (_ & Hfresh & ->)%save_new_Some Htrim. unfold findOne_shortCode.
  assert (forall code, JS.trim code = shortCode doc ->
            list_find (fun url => shortCode url = JS.trim code) coll = None) as Hnone.
  { intros code Hcode. apply list_find_None, Forall_forall. intros x Hx Heq. apply Hfresh.
    apply list_elem_of_fmap. exists x. by rewrite <- Hcode. }
  assert (forall code, JS.trim code = shortCode doc ->
            list_find (fun url => shortCode url = JS.trim code) (coll ++ [doc])
            = Some (length coll, doc)) as Hsome.
  { intros code Hcode. rewrite list_find_app_r by by apply Hnone.
    simpl. by rewrite decide_True. }
  split_and!.
  - by apply Hsome.
  - intros code Hcode. split; [by apply Hnone | by apply Hsome].
  - intros code Hcode.
    destruct (list_find (fun url => shortCode url = JS.trim code) coll)
      as [[i x]|] eqn:Hfind.
    + by apply list_find_app_l.
    + rewrite list_find_app_r by done. simpl. by rewrite decide_False.
Qed.

(** ** Requests that overlap *)

(** The two halves of a handler, run with nothing in between, are the
    handler. *)
Lemma resolve_in_two now referrer code w :
  resolve now referrer code w = resolve_save now referrer (resolve_load code w) w.
Proof. done. Qed.

Lemma shorten_in_two fuel now input w :
  shorten fuel now input w = shorten_insert fuel now (shorten_lookup input w) w.
Proof.
  unfold shorten, shorten_insert, shorten_lookup. destruct input as [u|]; [|done].
  case_bool_decide; [done|]. destruct (isValidUrl u); simpl; [|done].
  by destruct (findOne_originalUrl u (urls w)) as [[i url]|].
Qed.

Lemma resolve_save_loaded now referrer i url w :
  validate url = true ->
  resolve_save now referrer (Some (i, url)) w =
    (res_redirect referrer (originalUrl url),
     {| urls := <[i := visit now url]> (urls w); generated := generated w |}).
Proof.
  intros Hreq. unfold resolve_save, save_loaded.
  by rewrite validate_visit, Hreq.
Qed.

(** X11: [resolve] reads the counter and writes it back, so a click can be
    lost.  Two requests for the same code, each of which has read the
    document before the other has written it, both answer 302 with the
    encoded URL, yet [clicks] ends one above what it was, where the two
    requests one after the other would have left it two above.  The
    counter is one that two more visits keep in the range where Numbers
    count exactly. *)
Theorem resolve_overlap_loses_click t1 referrer1 t2 referrer2 code w i url :
  findOne_shortCode code (urls w) = Some (i, url) ->
  validate url = true ->
  originalUrl url <> "back"%string ->
  - 2 ^ 53 <= clicks url < 2 ^ 53 - 1 ->
  let first := resolve_load code w in
  let second := resolve_load code w in
  let w1 := (resolve_save t1 referrer1 first w).2 in
  (resolve_save t1 referrer1 first w).1
  = {| status := 302; body := redirect (Express.encodeUrl release (originalUrl url)) |} /\
  resolve_save t2 referrer2 second w1 =
    ({| status := 302; body := redirect (Express.encodeUrl release (originalUrl url)) |},
     {| urls := <[i := visited url 1 t2]> (urls w); generated := generated w |}) /\
  (resolve t2 referrer2 code (resolve t1 referrer1 code w).2).2 =
    {| urls := <[i := visited url 2 t2]> (urls w); generated := generated w |}.
Proof.
  intros Hfind Hreq Hback Hrange. cbn zeta. unfold resolve_load. rewrite Hfind.
  rewrite !resolve_save_loaded by done. cbn [fst snd urls generated].
  unfold res_redirect. rewrite !location_not_back by done.
  rewrite !visit_visited by lia.
  split_and!; [done| |].
  - by rewrite list_insert_insert_eq.
  - rewrite (resolve_found t1 _ _ _ _ _ Hfind Hreq). cbn [snd].
    rewrite (resolve_found t2 _ code _ i (visit t1 url));
      [|by apply (findOne_shortCode_insert _ _ _ url) | done].
    cbn [snd urls generated]. rewrite list_insert_insert_eq.
    rewrite (visit_visited t1) by lia. rewrite visit_visited by (simpl; lia).
    do 2 f_equal. unfold visited. simpl. f_equal. lia.
Qed.

(** X12: [shorten] looks a URL up and inserts it later, so two overlapping
    requests for one new URL can both insert.  When both have looked before
    either has inserted and both answer 201, the collection ends with two
    documents for the same URL under two different codes: the rule of one
    document per URL no longer holds. *)
Theorem shorten_overlap_duplicates fuel1 now1 fuel2 now2 u w r1 w1 r2 w2 :
  shorten_lookup (Some u) w = to_insert u ->
  shorten_insert fuel1 now1 (to_insert u) w = Some (r1, w1) -> status r1 = 201 ->
  shorten_insert fuel2 now2 (to_insert u) w1 = Some (r2, w2) -> status r2 = 201 ->
  exists d1 d2,
    urls w2 = urls w ++ [d1; d2] /\
    r1 = json_url 201 d1 /\ r2 = json_url 201 d2 /\
    originalUrl d1 = JS.trim u /\ originalUrl d2 = JS.trim u /\
    shortCode d1 <> shortCode d2 /\
    ~ NoDup (originalUrl <$> urls w2).
Proof.
  intros _ Hfirst H1 Hsecond H2. unfold shorten_insert in *.
  destruct (generate_unique fuel1 _ _) as [[c1 calls1]|]; simpl in Hfirst; [|done].
  destruct (save_new _ _) as [coll1|] eqn:Hsave1; injection Hfirst as <- <-; [|done].
  apply save_new_Some in Hsave1 as (_ & _ & ->). cbn [urls generated] in Hsecond.
  destruct (generate_unique fuel2 _ _) as [[c2 calls2]|]; simpl in Hsecond; [|done].
  destruct (save_new _ _) as [coll2|] eqn:Hsave2; injection Hsecond as <- <-; [|done].
  apply save_new_Some in Hsave2 as (_ & Hfresh & ->).
  exists (new_Url now1 u c1), (new_Url now2 u c2). cbn [urls].
  split_and!; [by rewrite <- app_assoc | done.. | |].
  - intros Heq. apply Hfresh. rewrite fmap_app, <- Heq.
    apply elem_of_app. right. left.
  - rewrite !fmap_app. simpl.
    intros (_ & Hdup & _)%NoDup_app.
    apply (Hdup (JS.trim u)); [apply elem_of_app; right; left | left].
Qed.

(** ** What validation lets through *)

(** The two ways of the host parser for a host that is not opaque. *)
Lemma host_parser_cases input :
  (exists o : option (list N),
     URL.host_parser unicode_ToASCII input false = URL.IPv6 <$> o) \/
  URL.host_parser unicode_ToASCII input false =
    URL.domain_to_ASCII unicode_ToASCII input ≫= (fun asciiDomain =>
      if Units.any URL.forbidden_domain_code_point asciiDomain then None
      else if URL.ends_in_a_number asciiDomain
           then URL.IPv4 <$> URL.IPv4_parser asciiDomain
           else Some (URL.Domain (string_of_list_ascii asciiDomain))).
Proof.
  unfold URL.host_parser.
  destruct input as [|[[] [] [] [] [] [] [] []] r]; try by right.
  left. destruct (reverse r) as [|[[] [] [] [] [] [] [] []] m];
    first [by exists None | by eexists].
Qed.

Lemma domain_to_ASCII_nonempty input result :
  URL.domain_to_ASCII unicode_ToASCII input = Some result -> result <> [].
Proof.
  unfold URL.domain_to_ASCII. intros (x & _ & Hx)%bind_Some.
  case_bool_decide; [done|]. by injection Hx as <-.
Qed.

Lemma host_parser_network input h :
  URL.host_parser unicode_ToASCII input false = Some h -> network_host h = true.
Proof.
  destruct (host_parser_cases input) as [[o ->]| ->].
  { by destruct o; intros [= <-]. }
  intros (result & Hne%domain_to_ASCII_nonempty & Hh)%bind_Some.
  destruct (Units.any _ _); [done|].
  destruct (URL.ends_in_a_number result).
  - destruct (URL.IPv4_parser result); [|done]. by injection Hh as <-.
  - injection Hh as <-. simpl. by destruct result.
Qed.

Lemma host_state_network insideBrackets buffer input h :
  URL.host_state unicode_ToASCII true insideBrackets buffer input = Some h ->
  network_host h = true.
Proof.
  revert insideBrackets buffer.
  induction input as [|c rest IH]; intros insideBrackets buffer; simpl.
  - case_bool_decide; [done|]. apply host_parser_network.
  - destruct (Units.eqc c ":" && negb insideBrackets); [|apply IH].
    case_bool_decide; [done|].
    destruct (URL.host_parser unicode_ToASCII buffer false) as [h'|] eqn:Hh; simpl; [|done].
    destruct (URL.port_state rest); intros [= <-]. by eapply host_parser_network.
Qed.

Lemma authority_state_network atSignSeen buffer input h :
  URL.authority_state unicode_ToASCII true atSignSeen buffer input = Some h ->
  network_host h = true.
Proof.
  revert atSignSeen buffer.
  assert (forall atSignSeen buffer,
            (if atSignSeen && bool_decide (buffer = []) then None
             else URL.host_state unicode_ToASCII true false [] buffer) = Some h ->
            network_host h = true) as Hfinish.
  { intros a b. destruct (a && _); [done|]. apply host_state_network. }
  induction input as [|c rest IH]; intros atSignSeen buffer; simpl; [apply Hfinish|].
  destruct (Units.eqc c "@"); [apply IH|].
  destruct (URL.ends_authority true c); [apply Hfinish | apply IH].
Qed.

Lemma special_authority_network input h :
  URL.special_authority_slashes_state unicode_ToASCII input = Some h ->
  network_host h = true.
Proof.
  assert (forall l, URL.special_authority_ignore_slashes_state unicode_ToASCII l = Some h ->
                    network_host h = true) as Hignore.
  { induction l as [|c rest IH]; cbn [URL.special_authority_ignore_slashes_state];
      [apply authority_state_network|].
    destruct (_ || _); [apply IH | apply authority_state_network]. }
  assert (exists l, URL.special_authority_slashes_state unicode_ToASCII input
                    = URL.special_authority_ignore_slashes_state unicode_ToASCII l)
    as [l ->]; [|apply Hignore].
  unfold URL.special_authority_slashes_state.
  destruct input as [|[[] [] [] [] [] [] [] []] r]; try by eexists.
  destruct r as [|[[] [] [] [] [] [] [] []] r]; by eexists.
Qed.

Lemma after_scheme_scheme scheme remaining parsed :
  URL.after_scheme unicode_ToASCII scheme remaining = Some parsed ->
  URL.scheme parsed = scheme.
Proof.
  unfold URL.after_scheme. case_bool_decide.
  { by destruct (URL.file_state _ _); intros [= <-]. }
  destruct (URL.special_scheme scheme).
  { by destruct (URL.special_authority_slashes_state _ _); intros [= <-]. }
  destruct remaining as [|[[] [] [] [] [] [] [] []] r]; try by intros [= <-].
  by destruct (URL.path_or_authority_state _ _); intros [= <-].
Qed.

(** X13: for the schemes of the web, validation does insist on a host.  A
    string that the URL parser accepts as an http, https, ftp, ws or wss URL
    has a non-empty domain or an IP address for its host. *)
Theorem web_url_has_host u parsed :
  URL.basic_URL_parser unicode_ToASCII u = Some parsed ->
  URL.scheme parsed ∈ ["http"; "https"; "ftp"; "ws"; "wss"]%string ->
  exists h, URL.host parsed = Some h /\ network_host h = true.
Proof.
  unfold URL.basic_URL_parser.
  destruct (URL.scheme_start_state _) as [[scheme remaining]|]; simpl; [|done].
  unfold URL.after_scheme. case_bool_decide as Hfile.
  { destruct (URL.file_state _ _); simpl; [|done]. intros [= <-] Hin. simpl in Hin.
    rewrite Hfile in Hin.
    repeat (apply elem_of_cons in Hin as [?|Hin]; [done|]). by inversion Hin. }
  destruct (URL.special_scheme _) eqn:Hspecial.
  - destruct (URL.special_authority_slashes_state _ _) as [h|] eqn:Hh; simpl; [|done].
    intros [= <-] _. exists h. split; [done|]. by eapply special_authority_network.
  - intros Hparsed Hin.
    assert (URL.scheme parsed = string_of_list_ascii scheme) as Hscheme.
    { apply (after_scheme_scheme _ remaining). unfold URL.after_scheme.
      by rewrite bool_decide_false, Hspecial. }
    rewrite Hscheme in Hin. unfold URL.special_scheme in Hspecial.
    apply bool_decide_eq_false in Hspecial. destruct Hspecial.
    repeat (apply elem_of_cons in Hin as [->|Hin]; [compute_done|]). by inversion Hin.
Qed.

Lemma scheme_state_reads buffer scheme rest :
  forallb scheme_char scheme = true ->
  URL.scheme_state buffer (scheme ++ ":"%char :: rest)
  = Some (buffer ++ (Char.lowercase <$> scheme), rest).
Proof.
  revert buffer. induction scheme as [|c cs IH]; intros buffer Hall.
  - simpl. by rewrite app_nil_r.
  - apply andb_true_iff in Hall as [Hc Hcs]. unfold scheme_char in Hc.
    cbn [app URL.scheme_state]. rewrite Hc, IH by done.
    by rewrite <- app_assoc.
Qed.

(** X14: outside those schemes validation asks for no host at all.  A
    string that reads, once stripped, as a letter, further scheme
    characters, a colon and a rest that does not begin with two slashes is
    accepted whatever the rest is, when its scheme is none of the special
    ones; the URL has the lowercased scheme and a null host. *)
Theorem opaque_url_is_valid u first scheme rest :
  URL.strip (list_ascii_of_string u) = first :: scheme ++ ":"%char :: rest ->
  Char.ascii_alpha first = true ->
  forallb scheme_char scheme = true ->
  URL.special_scheme (string_of_list_ascii (Char.lowercase <$> first :: scheme)) = false ->
  (forall r, rest <> "/"%char :: "/"%char :: r) ->
  URL.basic_URL_parser unicode_ToASCII u
    = Some (URL.mkURL (string_of_list_ascii (Char.lowercase <$> first :: scheme)) None) /\
  isValidUrl u = true.
Proof.
  intros Hstrip Hfirst Hscheme Hspecial Hrest.
  assert (URL.basic_URL_parser unicode_ToASCII u
          = Some (URL.mkURL (string_of_list_ascii (Char.lowercase <$> first :: scheme)) None))
    as Hparsed; [|split; [done|]; unfold isValidUrl; by rewrite Hparsed].
  unfold URL.basic_URL_parser. rewrite Hstrip.
  cbn [URL.scheme_start_state]. rewrite Hfirst, scheme_state_reads by done.
  cbn [mbind option_bind]. change ([Char.lowercase first] ++ (Char.lowercase <$> scheme))
    with (Char.lowercase <$> first :: scheme).
  unfold URL.after_scheme. case_bool_decide as Hfile.
  { by rewrite Hfile in Hspecial. }
  rewrite Hspecial.
  destruct rest as [|[[] [] [] [] [] [] [] []] r]; try done.
  destruct r as [|[[] [] [] [] [] [] [] []] r]; try done.
  by destruct (Hrest r).
Qed.

(** X15: what the database enforces holds after each half of a handler,
    run on any state where it holds, so also when requests overlap.  The
    inserting half of [shorten] keeps it; so does the saving half of
    [resolve] for a document read earlier, when its position still holds a
    document with its code. *)
Theorem enforced_kept w :
  enforced (urls w) ->
  (forall fuel now looked r w',
     shorten_insert fuel now looked w = Some (r, w') -> enforced (urls w')) /\
  (forall now referrer i url stored,
     urls w !! i = Some stored -> shortCode url = shortCode stored ->
     enforced (urls (resolve_save now referrer (Some (i, url)) w).2)) /\
  (forall now referrer, (resolve_save now referrer None w).2 = w).
Proof.
  intros Hw. split_and!; [| |done].
  - intros fuel now looked r w'. unfold shorten_insert.
    destruct looked as [r0|u]; [by intros [= _ <-]|].
    destruct (generate_unique fuel (generated w) (urls w)) as [[candidate calls]|];
      simpl; [|done].
    destruct (save_new _ _) as [coll|] eqn:Hsave; intros [= _ <-]; simpl; [|done].
    apply save_new_Some in Hsave as (Hvalidate & Hfresh & ->).
    by apply enforced_created.
  - intros now referrer i url stored Hi Hcode. unfold resolve_save, save_loaded.
    destruct (validate (visit now url)) eqn:Hvalidate; [|done]. cbn [snd urls].
    destruct Hw as [Hcodes Htrim Hreq]. split.
    + rewrite list_fmap_insert, list_insert_id; [done|].
      rewrite list_lookup_fmap, Hi. simpl. by rewrite Hcode.
    + apply Forall_insert; [done|]. cbn [visit shortCode]. rewrite Hcode.
      by apply (Forall_lookup_1 _ _ _ _ Htrim Hi).
    + by apply Forall_insert.
Qed.

(** ** The two answers of validation *)

Lemma ignore_slashes_only l :
  Units.all (fun c => Units.eqc c "/" || Units.eqc c "\") l = true ->
  URL.special_authority_ignore_slashes_state unicode_ToASCII l = None.
Proof.
  induction l as [|c rest IH]; cbn [URL.special_authority_ignore_slashes_state]; [done|].
  cbn [Units.all forallb]. intros [Hc Hrest]%andb_true_iff. rewrite Hc. by apply IH.
Qed.

Lemma special_authority_slashes_only l :
  Units.all (fun c => Units.eqc c "/" || Units.eqc c "\") l = true ->
  URL.special_authority_slashes_state unicode_ToASCII l = None.
Proof.
  intros Hl. unfold URL.special_authority_slashes_state.
  destruct l as [|[[] [] [] [] [] [] [] []] r]; try by apply ignore_slashes_only.
  destruct r as [|[[] [] [] [] [] [] [] []] r]; try by apply ignore_slashes_only.
Qed.

Lemma after_scheme_web scheme remaining :
  scheme ∈ ["http"; "https"; "ftp"; "ws"; "wss"]%string ->
  URL.after_scheme unicode_ToASCII scheme remaining
  = URL.special_authority_slashes_state unicode_ToASCII remaining
      ≫= (fun h => Some (URL.mkURL scheme (Some h))).
Proof.
  intros Hin. by repeat (apply elem_of_cons in Hin as [->|Hin]; [done|]); inversion Hin.
Qed.

(** C6 (as amended): an absent or empty [originalUrl] is answered with
    [MissingUrl]; a non-empty string on which the URL parser fails is
    answered with [InvalidUrl]; both leave the state as it is and the two
    answers differ.  The parser fails on every string without a colon, so
    without a scheme, and on every string that is, once stripped, an http,
    https, ftp, ws or wss scheme with nothing but slashes after the colon.
    A string that the parser accepts is never answered with a 400; its URL
    has a non-empty domain or an address for a host when its scheme is one
    of those five, and need not have a host otherwise. *)
Theorem shorten_validation fuel now input w :
  match input with
  | None => shorten fuel now input w = Some (MissingUrl, w)
  | Some u =>
      if bool_decide (u = ""%string) then shorten fuel now input w = Some (MissingUrl, w)
      else
        match URL.basic_URL_parser unicode_ToASCII u with
        | None => shorten fuel now input w = Some (InvalidUrl, w)
        | Some parsed =>
            ":"%char ∈ list_ascii_of_string u /\
            (URL.scheme parsed ∈ ["http"; "https"; "ftp"; "ws"; "wss"]%string ->
             exists h, URL.host parsed = Some h /\ network_host h = true) /\
            forall r w', shorten fuel now input w = Some (r, w') -> status r <> 400
        end
  end /\
  (forall u scheme remaining,
     URL.scheme_start_state (URL.strip (list_ascii_of_string u)) = Some (scheme, remaining) ->
     string_of_list_ascii scheme ∈ ["http"; "https"; "ftp"; "ws"; "wss"]%string ->
     Units.all (fun c => Units.eqc c "/" || Units.eqc c "\") remaining = true ->
     shorten fuel now (Some u) w = Some (InvalidUrl, w)) /\
  MissingUrl <> InvalidUrl.
Proof.
  split_and!; [| |done].
  - destruct input as [u|]; [|done].
    unfold shorten. case_bool_decide as Hu; [done|].
    destruct (URL.basic_URL_parser unicode_ToASCII u) as [parsed|] eqn:Hparse;
      [|unfold isValidUrl; by rewrite Hparse].
    assert (isValidUrl u = true) as Hvalid by (unfold isValidUrl; by rewrite Hparse).
    rewrite Hvalid. split_and!.
    + by apply isValidUrl_colon.
    + intros Hweb. unfold URL.basic_URL_parser in Hparse.
      destruct (URL.scheme_start_state _) as [[scheme remaining]|]; [|done].
      simpl in Hparse. pose proof (after_scheme_scheme _ _ _ Hparse) as Hscheme.
      rewrite Hscheme in Hweb. rewrite (after_scheme_web _ _ Hweb) in Hparse.
      destruct (URL.special_authority_slashes_state _ _) as [h|] eqn:Hh; [|done].
      injection Hparse as <-. exists h. split; [done|].
      by eapply special_authority_network.
    + simpl. intros r w'.
      destruct (findOne_originalUrl u (urls w)) as [[i url]|]; [by intros [= <- _]|].
      destruct (generate_unique fuel (generated w) (urls w)) as [[candidate calls]|];
        simpl; [|done].
      by destruct (save_new _ _); intros [= <- _].
  - intros u scheme remaining Hstart Hweb Hslashes.
    assert (URL.basic_URL_parser unicode_ToASCII u = None) as Hparse.
    { unfold URL.basic_URL_parser. rewrite Hstart. simpl.
      by rewrite (after_scheme_web _ _ Hweb), special_authority_slashes_only. }
    unfold shorten, isValidUrl. rewrite Hparse.
    case_bool_decide as Hu; [|done]. by rewrite Hu in Hstart.
Qed.

End Server.

(** ** Worked examples *)

Local Open Scope string_scope.
Local Open Scope Z_scope.

Lemma example_world_consistent : consistent (urls Example.world).
Proof. split; compute_done. Qed.

Lemma example_world_enforced : enforced (urls Example.world).
Proof. split; compute_done. Qed.

Lemma example_spaced_enforced : enforced (urls Example.spaced).
Proof. split; compute_done. Qed.

(** The strings of the specification's examples, as the parser reads them
    on any platform. *)
Example parse_examples unicode_ToASCII :
  URL.basic_URL_parser unicode_ToASCII "http://example.com"
    = Some (URL.mkURL "http" (Some (URL.Domain "example.com"))) /\
  URL.basic_URL_parser unicode_ToASCII "http://example.com/"
    = Some (URL.mkURL "http" (Some (URL.Domain "example.com"))) /\
  URL.basic_URL_parser unicode_ToASCII "HTTP://example.com"
    = Some (URL.mkURL "http" (Some (URL.Domain "example.com"))) /\
  URL.basic_URL_parser unicode_ToASCII " http://example.com"
    = Some (URL.mkURL "http" (Some (URL.Domain "example.com"))) /\
  URL.basic_URL_parser unicode_ToASCII "mailto:a@b.c"
    = Some (URL.mkURL "mailto" None) /\
  URL.basic_URL_parser unicode_ToASCII "not a url" = None /\
  URL.basic_URL_parser unicode_ToASCII "" = None.
Proof. repeat split; reflexivity. Qed.

(** The specification's validation examples. *)
Example validation_examples unicode_ToASCII BASE_URL shortid_generate fuel now w :
  shorten unicode_ToASCII BASE_URL shortid_generate fuel now (Some "") w
    = Some (MissingUrl, w) /\
  shorten unicode_ToASCII BASE_URL shortid_generate fuel now (Some "not a url") w
    = Some (InvalidUrl, w) /\
  shorten unicode_ToASCII BASE_URL shortid_generate fuel now (Some "example.com/path") w
    = Some (InvalidUrl, w) /\
  shorten unicode_ToASCII BASE_URL shortid_generate fuel now (Some "http://") w
    = Some (InvalidUrl, w) /\
  shorten unicode_ToASCII BASE_URL shortid_generate fuel now (Some "HTTPS:") w
    = Some (InvalidUrl, w) /\
  shorten unicode_ToASCII BASE_URL shortid_generate fuel now (Some "ftp:///?q") w
    = Some (InvalidUrl, w).
Proof. repeat split; reflexivity. Qed.

(** What [encodeUrl] does to a space, to escapes, to a "%" that starts
    none, to a code unit above 127 and, by release, to a vertical bar. *)
Example encodeUrl_examples :
  Express.encodeUrl Example.release "http://example.com/a b" = "http://example.com/a%20b" /\
  Express.encodeUrl Example.release "http://localhost/%F0snow.html"
  = "http://localhost/%F0snow.html" /\
  Express.encodeUrl Example.release "http://localhost/%foo%bar%zap%"
  = "http://localhost/%25foo%bar%25zap%25" /\
  Express.encodeUrl Example.release (String (ascii_of_nat 233) "") = "%C3%A9" /\
  Express.encodeUrl (Express.mkRelease true true) "http://example.com/a|b"
  = "http://example.com/a%7Cb" /\
  Express.encodeUrl (Express.mkRelease true false) "http://example.com/a|b"
  = "http://example.com/a|b".
Proof. repeat split; reflexivity. Qed.

(** "back" under Express 4 and under Express 5. *)
Example location_examples :
  Express.location (Express.mkRelease true true) (Some "http://example.org/") "back"
  = "http://example.org/" /\
  Express.location (Express.mkRelease true true) None "back" = "/" /\
  Express.location (Express.mkRelease false false) None "back" = "back".
Proof. repeat split; reflexivity. Qed.

(** Adding 1 below, at and above 2^53. *)
Example add1_examples :
  JS.add1 41 = 42 /\
  JS.add1 9007199254740991 = 9007199254740992 /\
  JS.add1 9007199254740992 = 9007199254740992 /\
  JS.add1 9007199254740994 = 9007199254740996 /\
  JS.add1 (-9007199254740992) = -9007199254740991.
Proof. repeat split; reflexivity. Qed.

(** The specification's statistics example: clicks 3, 0 and 5. *)
Example stats_example :
  (stats Example.world).1 = {| status := 200; body := statistics 3 8 |}.
Proof. reflexivity. Qed.

(** The first three identifiers are taken, the fourth is returned. *)
Example generate_unique_example :
  generate_unique Example.shortid_generate 9 0 Example.three_urls
  = Some ("dBvJIh-H", 4%nat).
Proof. reflexivity. Qed.

(** The whole sample session. *)
Example session_example :
  run Example.unicode_ToASCII Example.BASE_URL Example.shortid_generate
      Example.release Example.requests initial
  = Some
      ([ {| status := 201;
            body := shortened "http://example.com" "http://localhost:3000/PPBqWA9" "PPBqWA9" |};
         {| status := 200;
            body := shortened "http://example.com" "http://localhost:3000/PPBqWA9" "PPBqWA9" |};
         {| status := 201;
            body := shortened "http://example.com/" "http://localhost:3000/23TplPdS" "23TplPdS" |};
         {| status := 201;
            body := shortened "mailto:a@b.c" "http://localhost:3000/46Juzcyx" "46Juzcyx" |};
         {| status := 302; body := redirect "http://example.com" |};
         {| status := 200; body := statistics 3 1 |} ],
       {| urls := [ mkUrl "http://example.com" "PPBqWA9" 1 10 (Some 20);
                    mkUrl "http://example.com/" "23TplPdS" 0 12 None;
                    mkUrl "mailto:a@b.c" "46Juzcyx" 0 13 None ];
          generated := 3 |}).
Proof. reflexivity. Qed.

(** ** The theorems at work, and where the specification goes too far *)

(** [shorten_idempotent] in the sample state: for a URL that has a
    document, and for two calls in a row for one that has none. *)
Lemma shorten_idempotent_witness :
  shorten Example.unicode_ToASCII Example.BASE_URL Example.shortid_generate
    0 10 (Some "http://example.com") Example.world
  = Some ({| status := 200;
             body := shortened "http://example.com" "http://localhost:3000/PPBqWA9"
                       "PPBqWA9" |},
          Example.world) /\
  exists c,
    (201 = 200 \/ 201 = 201) /\
    shortened "http://example.net/x" "http://localhost:3000/dBvJIh-H" "dBvJIh-H"
    = shortened (JS.trim "http://example.net/x") (Example.BASE_URL ++ "/" ++ c) c /\
    (forall fuel' now',
       shorten Example.unicode_ToASCII Example.BASE_URL Example.shortid_generate
         fuel' now' (Some "http://example.net/x")
         {| urls := Example.three_urls
                    ++ [mkUrl "http://example.net/x" "dBvJIh-H" 0 10 None];
            generated := 4 |}
       = Some ({| status := 200;
                  body := shortened (JS.trim "http://example.net/x")
                            (Example.BASE_URL ++ "/" ++ c) c |},
               {| urls := Example.three_urls
                          ++ [mkUrl "http://example.net/x" "dBvJIh-H" 0 10 None];
                  generated := 4 |})) /\
    length (filter (fun d => originalUrl d = JS.trim "http://example.net/x")
              (Example.three_urls
               ++ [mkUrl "http://example.net/x" "dBvJIh-H" 0 10 None])%list) = 1%nat.
Proof.
  assert (NoDup (originalUrl <$> urls Example.world)) as Hnd by compute_done.
  split.
  - apply (proj1 (shorten_idempotent Example.unicode_ToASCII Example.BASE_URL
                    Example.shortid_generate 0 10 "http://example.com" Example.world
                    eq_refl Hnd)
             0%nat (mkUrl "http://example.com" "PPBqWA9" 3 1000 (Some 5000)));
      reflexivity.
  - apply (proj2 (shorten_idempotent Example.unicode_ToASCII Example.BASE_URL
                    Example.shortid_generate 1 10 "http://example.net/x" Example.world
                    eq_refl Hnd)
             {| status := 201;
                body := shortened "http://example.net/x" "http://localhost:3000/dBvJIh-H"
                          "dBvJIh-H" |}
             {| urls := Example.three_urls
                        ++ [mkUrl "http://example.net/x" "dBvJIh-H" 0 10 None];
                generated := 4 |});
      [reflexivity | by vm_compute].
Defined.

(** [shortCode_unique] on the sample session. *)
Lemma shortCode_unique_witness :
  exists log w,
    run Example.unicode_ToASCII Example.BASE_URL Example.shortid_generate
        Example.release Example.requests initial = Some (log, w) /\
    NoDup (shortCode <$> urls w) /\
    (forall i j r1 r2 o1 s1 c1 o2 s2 c2,
       (i < j)%nat -> log !! i = Some r1 -> log !! j = Some r2 ->
       body r1 = shortened o1 s1 c1 -> body r2 = shortened o2 s2 c2 ->
       (o1 <> o2 \/ status r2 = 201) -> c1 <> c2).
Proof.
  eexists _, _.
  assert (run Example.unicode_ToASCII Example.BASE_URL Example.shortid_generate
            Example.release Example.requests initial = Some _) as Hrun by reflexivity.
  split; [exact Hrun|].
  destruct (shortCode_unique Example.unicode_ToASCII Example.BASE_URL
              Example.shortid_generate Example.release _ _ _ Hrun)
    as (Hnd & _ & Hdistinct & _).
  exact (conj Hnd Hdistinct).
Defined.

(** C2, counterexample: two successful calls of [shorten] with two
    different strings, the second with a space at its end, return the same
    code. *)
Lemma shorten_distinct_calls_same_code :
  "http://example.com" <> "http://example.com " /\
  run Example.unicode_ToASCII Example.BASE_URL Example.shortid_generate Example.release
    [ POST_shorten 1 10 (Some "http://example.com");
      POST_shorten 1 11 (Some "http://example.com ") ] initial
  = Some
      ([ {| status := 201;
            body := shortened "http://example.com" "http://localhost:3000/PPBqWA9" "PPBqWA9" |};
         {| status := 200;
            body := shortened "http://example.com" "http://localhost:3000/PPBqWA9" "PPBqWA9" |} ],
       {| urls := [mkUrl "http://example.com" "PPBqWA9" 0 10 None]; generated := 1 |}) /\
  ~ ("PPBqWA9" <> "PPBqWA9").
Proof. split_and!; [done | reflexivity | by intros H]. Qed.

(** C3, counterexample: with a generator that keeps returning a stored
    identifier, [shorten] of a new URL has not answered after any number of
    rounds; no ceiling stops the loop and no error is reported. *)
Lemma shorten_never_gives_up :
  ~ exists fuel r w,
      shorten Example.unicode_ToASCII Example.BASE_URL Example.stuck_generate
        fuel 10 (Some "http://example.org/new") Example.world = Some (r, w).
Proof.
  intros (fuel & r & w & Hcase).
  assert (isValidUrl Example.unicode_ToASCII "http://example.org/new" = true) as Hvalid
    by reflexivity.
  assert (forall fuel, generate_unique Example.stuck_generate fuel
                         (generated Example.world) (urls Example.world) = None) as Hstuck.
  { apply generate_unique_stuck. intros j. by eexists. }
  apply shorten_new_answers in Hcase as [x Hx]; [|done..].
  by rewrite Hstuck in Hx.
Qed.

(** [resolve_after_shorten] for a URL typed with a space in front and
    another space in its path. *)
Lemma resolve_after_shorten_witness :
  (resolve Example.release 20 None "dBvJIh-H"
     {| urls := Example.three_urls
                ++ [mkUrl "http://example.net/a b" "dBvJIh-H" 0 10 None];
        generated := 4 |}).1
  = {| status := 302; body := redirect "http://example.net/a%20b" |}.
Proof.
  apply (proj1 (proj2
           (resolve_after_shorten Example.unicode_ToASCII Example.BASE_URL
              Example.shortid_generate Example.release 1 10 20 None
              " http://example.net/a b" Example.world
              {| status := 201;
                 body := shortened "http://example.net/a b"
                           "http://localhost:3000/dBvJIh-H" "dBvJIh-H" |}
              {| urls := Example.three_urls
                         ++ [mkUrl "http://example.net/a b" "dBvJIh-H" 0 10 None];
                 generated := 4 |}
              "http://example.net/a b" "http://localhost:3000/dBvJIh-H" "dBvJIh-H"
              eq_refl example_world_enforced eq_refl eq_refl))).
Defined.

(** C4, counterexample: " http://example.com" passes validation, and the
    code returned for it redirects to "http://example.com", which is not
    the string that was shortened.  Nor is it for "http://example.com/a b",
    which has no white space around it: the space comes back escaped. *)
Lemma resolve_after_shorten_padded :
  isValidUrl Example.unicode_ToASCII " http://example.com" = true /\
  shorten Example.unicode_ToASCII Example.BASE_URL Example.shortid_generate
    1 10 (Some " http://example.com") initial
  = Some ({| status := 201;
             body := shortened "http://example.com" "http://localhost:3000/PPBqWA9" "PPBqWA9" |},
          {| urls := [mkUrl "http://example.com" "PPBqWA9" 0 10 None]; generated := 1 |}) /\
  (resolve Example.release 20 None "PPBqWA9"
     {| urls := [mkUrl "http://example.com" "PPBqWA9" 0 10 None]; generated := 1 |}).1
  = {| status := 302; body := redirect "http://example.com" |} /\
  redirect "http://example.com" <> redirect " http://example.com" /\
  isValidUrl Example.unicode_ToASCII "http://example.com/a b" = true /\
  shorten Example.unicode_ToASCII Example.BASE_URL Example.shortid_generate
    1 10 (Some "http://example.com/a b") initial
  = Some ({| status := 201;
             body := shortened "http://example.com/a b" "http://localhost:3000/PPBqWA9"
                       "PPBqWA9" |},
          {| urls := [mkUrl "http://example.com/a b" "PPBqWA9" 0 10 None];
             generated := 1 |}) /\
  (resolve Example.release 20 None "PPBqWA9"
     {| urls := [mkUrl "http://example.com/a b" "PPBqWA9" 0 10 None]; generated := 1 |}).1
  = {| status := 302; body := redirect "http://example.com/a%20b" |} /\
  redirect "http://example.com/a%20b" <> redirect "http://example.com/a b".
Proof. by repeat split. Qed.

(** [resolve_each_counts]: three visits, at 20, 21 and 22, of a document
    whose URL has a space in it. *)
Lemma resolve_each_counts_witness :
  resolve_each Example.release [(20, None); (21, Some "http://example.org/"); (22, None)]
    "2WEKaVNO" Example.spaced
  = (replicate 3 {| status := 302; body := redirect "http://example.com/a%20b" |},
     {| urls := [mkUrl "http://example.com/a b" "2WEKaVNO" 6 1000 (Some 22)];
        generated := 5 |}).
Proof.
  assert (- 2 ^ 53 <= 3) as Hlo by (by vm_compute).
  assert (3 + Z.of_nat 3 <= 2 ^ 53) as Hhi by (by vm_compute).
  destruct (resolve_each_counts Example.release
              [(20, None); (21, Some "http://example.org/")] 22 None Example.spaced 0
              (mkUrl "http://example.com/a b" "2WEKaVNO" 3 1000 None)
              example_spaced_enforced eq_refl Hlo Hhi) as (Hstate & Hlog & _).
  apply injective_projections; [exact Hlog | exact Hstate].
Defined.

(** C5, counterexample: a document whose counter stands at 2^53.  The
    visit is answered with the redirect and recorded in [lastAccessed], and
    the counter is what it was. *)
Lemma resolve_uncounted :
  resolve Example.release 20 None "PPBqWA9"
    {| urls := [mkUrl "http://example.com" "PPBqWA9" 9007199254740992 1000 None];
       generated := 1 |}
  = ({| status := 302; body := redirect "http://example.com" |},
     {| urls := [mkUrl "http://example.com" "PPBqWA9" 9007199254740992 1000 (Some 20)];
        generated := 1 |}) /\
  9007199254740992 = 2 ^ 53 /\
  9007199254740992 <> 9007199254740992 + 1.
Proof. by vm_compute. Qed.

(** [resolve_absent] in the sample state. *)
Lemma resolve_absent_witness :
  resolve Example.release 20 None "nonexistent" Example.world = (NotFound, Example.world).
Proof.
  apply (proj1 (resolve_absent Example.release 20 None "nonexistent" Example.world)).
  apply Forall_forall. compute_done.
Defined.

(** C7, counterexample: no document of the sample state has the code
    " PPBqWA9 ", with its two spaces, and yet the request for it is
    answered with a redirect and counted as a visit of "PPBqWA9". *)
Lemma resolve_padded_code :
  (forall url, url ∈ urls Example.world -> shortCode url <> " PPBqWA9 ") /\
  resolve Example.release 20 None " PPBqWA9 " Example.world
  = ({| status := 302; body := redirect "http://example.com" |},
     {| urls := [ mkUrl "http://example.com" "PPBqWA9" 4 1000 (Some 20);
                  mkUrl "mailto:a@b.c" "23TplPdS" 0 2000 None;
                  mkUrl "https://example.org/a?b=c" "46Juzcyx" 5 3000 (Some 4000) ];
        generated := 3 |}) /\
  resolve Example.release 20 None " PPBqWA9 " Example.world <> (NotFound, Example.world).
Proof.
  split_and!; [|reflexivity|done].
  apply Forall_forall. compute_done.
Qed.

(** C6, counterexample: "mailto:a@b.c" parses to a URL with a scheme and a
    null host, and [shorten] stores it instead of answering [InvalidUrl]. *)
Lemma shorten_accepts_hostless :
  URL.basic_URL_parser Example.unicode_ToASCII "mailto:a@b.c"
    = Some (URL.mkURL "mailto" None) /\
  shorten Example.unicode_ToASCII Example.BASE_URL Example.shortid_generate
    1 10 (Some "mailto:a@b.c") initial
  = Some ({| status := 201;
             body := shortened "mailto:a@b.c" "http://localhost:3000/PPBqWA9" "PPBqWA9" |},
          {| urls := [mkUrl "mailto:a@b.c" "PPBqWA9" 0 10 None]; generated := 1 |}) /\
  shorten Example.unicode_ToASCII Example.BASE_URL Example.shortid_generate
    1 10 (Some "mailto:a@b.c") initial
  <> Some (InvalidUrl, initial).
Proof. by repeat split. Qed.

(** [shorten_distinct_urls] for the two URLs the specification names. *)
Lemma shorten_distinct_urls_witness :
  exists d1 d2,
    [ mkUrl "http://example.com" "PPBqWA9" 0 10 None;
      mkUrl "http://example.com/" "23TplPdS" 0 11 None ] = (urls initial ++ [d1; d2])%list /\
    {| status := 201;
       body := shortened "http://example.com" "http://localhost:3000/PPBqWA9" "PPBqWA9" |}
    = json_url Example.BASE_URL 201 d1 /\
    {| status := 201;
       body := shortened "http://example.com/" "http://localhost:3000/23TplPdS" "23TplPdS" |}
    = json_url Example.BASE_URL 201 d2 /\
    originalUrl d1 = JS.trim "http://example.com" /\
    originalUrl d2 = JS.trim "http://example.com/" /\
    shortCode d1 <> shortCode d2.
Proof.
  apply (shorten_distinct_urls Example.unicode_ToASCII Example.BASE_URL
           Example.shortid_generate 1 10 1 11 "http://example.com" "http://example.com/"
           initial _
           {| urls := [mkUrl "http://example.com" "PPBqWA9" 0 10 None]; generated := 1 |}
           _
           {| urls := [ mkUrl "http://example.com" "PPBqWA9" 0 10 None;
                        mkUrl "http://example.com/" "23TplPdS" 0 11 None ];
              generated := 2 |});
    [reflexivity | reflexivity | by vm_compute | reflexivity | reflexivity
    | reflexivity | by vm_compute | reflexivity | by vm_compute].
Defined.

(** C10, counterexample: "http://example.com" and " http://example.com" are
    different strings and both pass validation, yet the second call finds
    the document of the first: one document, one code. *)
Lemma shorten_padded_same_code :
  isValidUrl Example.unicode_ToASCII "http://example.com" = true /\
  isValidUrl Example.unicode_ToASCII " http://example.com" = true /\
  "http://example.com" <> " http://example.com" /\
  run Example.unicode_ToASCII Example.BASE_URL Example.shortid_generate
    Example.release [ POST_shorten 1 10 (Some "http://example.com");
      POST_shorten 1 11 (Some " http://example.com") ] initial
  = Some
      ([ {| status := 201;
            body := shortened "http://example.com" "http://localhost:3000/PPBqWA9" "PPBqWA9" |};
         {| status := 200;
            body := shortened "http://example.com" "http://localhost:3000/PPBqWA9" "PPBqWA9" |} ],
       {| urls := [mkUrl "http://example.com" "PPBqWA9" 0 10 None]; generated := 1 |}).
Proof. by repeat split. Qed.

(** [reachable_consistent] for the state the sample session leaves. *)
Lemma reachable_consistent_witness :
  consistent
    [ mkUrl "http://example.com" "PPBqWA9" 1 10 (Some 20);
      mkUrl "http://example.com/" "23TplPdS" 0 12 None;
      mkUrl "mailto:a@b.c" "46Juzcyx" 0 13 None ].
Proof.
  apply (reachable_consistent Example.unicode_ToASCII Example.BASE_URL
           Example.shortid_generate Example.release
           {| urls := [ mkUrl "http://example.com" "PPBqWA9" 1 10 (Some 20);
                        mkUrl "http://example.com/" "23TplPdS" 0 12 None;
                        mkUrl "mailto:a@b.c" "46Juzcyx" 0 13 None ];
              generated := 3 |}).
  exists Example.requests. eexists. reflexivity.
Defined.

(** [shorten_creates] in the sample state: the first three identifiers of
    the generator are taken, the fourth is used. *)
Lemma shorten_creates_witness :
  shorten Example.unicode_ToASCII Example.BASE_URL Example.shortid_generate
    9 10 (Some "http://example.net/x") {| urls := Example.three_urls; generated := 0 |}
  = Some ({| status := 201;
             body := shortened "http://example.net/x" "http://localhost:3000/dBvJIh-H"
                       "dBvJIh-H" |},
          {| urls := Example.three_urls ++ [mkUrl "http://example.net/x" "dBvJIh-H" 0 10 None];
             generated := 4 |}).
Proof.
  apply (shorten_creates Example.unicode_ToASCII Example.BASE_URL Example.shortid_generate
           3 9 10 "http://example.net/x" {| urls := Example.three_urls; generated := 0 |});
    [reflexivity | reflexivity | | reflexivity | by vm_compute | lia].
  intros [|[|[|j]]] Hj; [by eexists.. | lia].
Defined.

(** [admin_urls_resolvable] for a document whose URL has a space in it. *)
Lemma admin_urls_resolvable_witness :
  (resolve Example.release 20 None "2WEKaVNO" Example.spaced).1
  = {| status := 302; body := redirect "http://example.com/a%20b" |}.
Proof.
  apply (admin_urls_resolvable Example.BASE_URL Example.release 20 None Example.spaced
           (Admin.mkFull 0 "http://example.com/a b" "http://localhost:3000/2WEKaVNO"
              "2WEKaVNO" 3 1000 None)).
  - apply example_spaced_enforced.
  - vm_compute. left.
  - done.
Defined.

(** [admin_urls_after_shorten]: a URL shortened at 4000 in the sample state,
    whose documents were created at 1000, 2000 and 3000. *)
Lemma admin_urls_after_shorten_witness :
  exists e rest,
    Admin.body
      (admin_urls Example.BASE_URL
         {| urls := Example.three_urls
                    ++ [mkUrl "http://example.net/x" "dBvJIh-H" 0 4000 None];
            generated := 4 |}).1 = e :: rest /\
    Admin._id e = 3%nat /\
    Admin.originalUrl e = "http://example.net/x" /\
    Admin.createdAt e = 4000 /\
    Admin.clicks e = 0 /\
    Admin.lastAccessed e = None /\
    shortened "http://example.net/x" "http://localhost:3000/dBvJIh-H" "dBvJIh-H"
    = shortened (Admin.originalUrl e) (Admin.shortUrl e) (Admin.shortCode e).
Proof.
  apply (admin_urls_after_shorten Example.unicode_ToASCII Example.BASE_URL
           Example.shortid_generate 1 4000 "http://example.net/x" Example.world
           {| status := 201;
              body := shortened "http://example.net/x" "http://localhost:3000/dBvJIh-H"
                        "dBvJIh-H" |}
           {| urls := Example.three_urls
                      ++ [mkUrl "http://example.net/x" "dBvJIh-H" 0 4000 None];
              generated := 4 |}).
  - reflexivity.
  - reflexivity.
  - apply (proj1 (Forall_forall (fun url => createdAt url < 4000) _)). compute_done.
Defined.

(** [stats_after_run] on the sample session: three answers 201 and one
    answer 302. *)
Lemma stats_after_run_witness :
  (stats {| urls := [ mkUrl "http://example.com" "PPBqWA9" 1 10 (Some 20);
                      mkUrl "http://example.com/" "23TplPdS" 0 12 None;
                      mkUrl "mailto:a@b.c" "46Juzcyx" 0 13 None ];
            generated := 3 |}).1
  = {| status := 200; body := statistics 3 1 |}.
Proof.
  apply (stats_after_run Example.unicode_ToASCII Example.BASE_URL Example.shortid_generate
           Example.release Example.requests initial
           [ {| status := 201;
                body := shortened "http://example.com" "http://localhost:3000/PPBqWA9"
                          "PPBqWA9" |};
             {| status := 200;
                body := shortened "http://example.com" "http://localhost:3000/PPBqWA9"
                          "PPBqWA9" |};
             {| status := 201;
                body := shortened "http://example.com/" "http://localhost:3000/23TplPdS"
                          "23TplPdS" |};
             {| status := 201;
                body := shortened "mailto:a@b.c" "http://localhost:3000/46Juzcyx"
                          "46Juzcyx" |};
             {| status := 302; body := redirect "http://example.com" |};
             {| status := 200; body := statistics 3 1 |} ]
           {| urls := [ mkUrl "http://example.com" "PPBqWA9" 1 10 (Some 20);
                        mkUrl "http://example.com/" "23TplPdS" 0 12 None;
                        mkUrl "mailto:a@b.c" "46Juzcyx" 0 13 None ];
              generated := 3 |}).
  - reflexivity.
  - constructor.
  - by vm_compute.
Defined.

(** [run_keeps_documents]: the first sample document after a visit and an
    insertion. *)
Lemma run_keeps_documents_witness :
  exists url',
    [ mkUrl "http://example.com" "PPBqWA9" 4 1000 (Some 20);
      mkUrl "mailto:a@b.c" "23TplPdS" 0 2000 None;
      mkUrl "https://example.org/a?b=c" "46Juzcyx" 5 3000 (Some 4000);
      mkUrl "http://example.net/x" "dBvJIh-H" 0 4000 None ] !! 0%nat = Some url' /\
    originalUrl url' = "http://example.com" /\ shortCode url' = "PPBqWA9" /\
    createdAt url' = 1000 /\ 3 <= clicks url'.
Proof.
  apply (run_keeps_documents Example.unicode_ToASCII Example.BASE_URL
           Example.shortid_generate Example.release
           [ GET_shortCode 20 None "PPBqWA9";
             POST_shorten 1 4000 (Some "http://example.net/x") ]
           Example.world
           [ {| status := 302; body := redirect "http://example.com" |};
             {| status := 201;
                body := shortened "http://example.net/x" "http://localhost:3000/dBvJIh-H"
                          "dBvJIh-H" |} ]
           {| urls := [ mkUrl "http://example.com" "PPBqWA9" 4 1000 (Some 20);
                        mkUrl "mailto:a@b.c" "23TplPdS" 0 2000 None;
                        mkUrl "https://example.org/a?b=c" "46Juzcyx" 5 3000 (Some 4000);
                        mkUrl "http://example.net/x" "dBvJIh-H" 0 4000 None ];
              generated := 4 |}
           0%nat (mkUrl "http://example.com" "PPBqWA9" 3 1000 (Some 5000)));
    reflexivity.
Defined.

(** [reachable_visits_recorded] for the state the sample session leaves. *)
Lemma reachable_visits_recorded_witness :
  Forall visits_recorded
    [ mkUrl "http://example.com" "PPBqWA9" 1 10 (Some 20);
      mkUrl "http://example.com/" "23TplPdS" 0 12 None;
      mkUrl "mailto:a@b.c" "46Juzcyx" 0 13 None ].
Proof.
  apply (reachable_visits_recorded Example.unicode_ToASCII Example.BASE_URL
           Example.shortid_generate Example.release
           {| urls := [ mkUrl "http://example.com" "PPBqWA9" 1 10 (Some 20);
                        mkUrl "http://example.com/" "23TplPdS" 0 12 None;
                        mkUrl "mailto:a@b.c" "46Juzcyx" 0 13 None ];
              generated := 3 |}).
  exists Example.requests. eexists. reflexivity.
Defined.

(** [shorten_frame] for a rejected input in the sample state. *)
Lemma shorten_frame_witness :
  (generated Example.world <= generated Example.world)%nat /\
  ((status InvalidUrl <> 201 /\ urls Example.world = urls Example.world) \/
   (status InvalidUrl = 201 /\
    exists doc,
      urls Example.world = (urls Example.world ++ [doc])%list /\
      clicks doc = 0 /\ lastAccessed doc = None /\ createdAt doc = 10 /\
      body InvalidUrl
      = shortened (originalUrl doc) (Example.BASE_URL ++ "/" ++ shortCode doc)
          (shortCode doc))).
Proof.
  apply (shorten_frame Example.unicode_ToASCII Example.BASE_URL Example.shortid_generate
           1 10 (Some "not a url") Example.world InvalidUrl Example.world).
  reflexivity.
Defined.

(** [save_new_then_findOne] for a fourth document in the sample
    collection. *)
Lemma save_new_then_findOne_witness :
  findOne_shortCode "dBvJIh-H"
    (Example.three_urls ++ [mkUrl "http://example.net/x" "dBvJIh-H" 0 10 None])
  = Some (3%nat, mkUrl "http://example.net/x" "dBvJIh-H" 0 10 None) /\
  (forall code, JS.trim code = "dBvJIh-H" ->
     findOne_shortCode code Example.three_urls = None /\
     findOne_shortCode code
       (Example.three_urls ++ [mkUrl "http://example.net/x" "dBvJIh-H" 0 10 None])
     = Some (3%nat, mkUrl "http://example.net/x" "dBvJIh-H" 0 10 None)) /\
  (forall code, JS.trim code <> "dBvJIh-H" ->
     findOne_shortCode code
       (Example.three_urls ++ [mkUrl "http://example.net/x" "dBvJIh-H" 0 10 None])
     = findOne_shortCode code Example.three_urls).
Proof.
  apply (save_new_then_findOne (mkUrl "http://example.net/x" "dBvJIh-H" 0 10 None)
           Example.three_urls
           (Example.three_urls ++ [mkUrl "http://example.net/x" "dBvJIh-H" 0 10 None]));
    reflexivity.
Defined.

(** [resolve_overlap_loses_click]: two overlapping visits, at 20 and 21,
    leave [clicks] at 4, not at 5. *)
Lemma resolve_overlap_loses_click_witness :
  resolve_save Example.release 21 None (resolve_load "2WEKaVNO" Example.spaced)
    (resolve_save Example.release 20 None (resolve_load "2WEKaVNO" Example.spaced)
       Example.spaced).2
  = ({| status := 302; body := redirect "http://example.com/a%20b" |},
     {| urls := [mkUrl "http://example.com/a b" "2WEKaVNO" 4 1000 (Some 21)];
        generated := 5 |}) /\
  (resolve Example.release 21 None "2WEKaVNO"
     (resolve Example.release 20 None "2WEKaVNO" Example.spaced).2).2
  = {| urls := [mkUrl "http://example.com/a b" "2WEKaVNO" 5 1000 (Some 21)];
       generated := 5 |}.
Proof.
  assert (- 2 ^ 53 <= 3 < 2 ^ 53 - 1) as Hrange by (by vm_compute).
  assert ("http://example.com/a b" <> "back") as Hback by done.
  exact (proj2 (resolve_overlap_loses_click Example.release 20 None 21 None
                  "2WEKaVNO" Example.spaced 0%nat
                  (mkUrl "http://example.com/a b" "2WEKaVNO" 3 1000 None)
                  eq_refl eq_refl Hback Hrange)).
Defined.

(** [enforced_kept]: a visit read in the sample state and saved after
    another request has inserted a document. *)
Lemma enforced_kept_witness :
  enforced
    [ mkUrl "http://example.com" "PPBqWA9" 4 1000 (Some 20);
      mkUrl "mailto:a@b.c" "23TplPdS" 0 2000 None;
      mkUrl "https://example.org/a?b=c" "46Juzcyx" 5 3000 (Some 4000);
      mkUrl "http://example.net/x" "dBvJIh-H" 0 10 None ].
Proof.
  assert (enforced
            (urls {| urls := Example.three_urls
                             ++ [mkUrl "http://example.net/x" "dBvJIh-H" 0 10 None];
                     generated := 4 |})) as Hw by (split; compute_done).
  apply (proj1 (proj2 (enforced_kept Example.BASE_URL Example.shortid_generate
                         Example.release _ Hw))
           20 None 0%nat (mkUrl "http://example.com" "PPBqWA9" 3 1000 (Some 5000))
           (mkUrl "http://example.com" "PPBqWA9" 3 1000 (Some 5000)));
    reflexivity.
Defined.

(** [shorten_overlap_duplicates]: two overlapping requests for one new URL
    in the sample state. *)
Lemma shorten_overlap_duplicates_witness :
  ~ NoDup (originalUrl <$>
             (Example.three_urls
              ++ [ mkUrl "http://example.net/x" "dBvJIh-H" 0 10 None;
                   mkUrl "http://example.net/x" "2WEKaVNO" 0 11 None ])%list).
Proof.
  destruct (shorten_overlap_duplicates Example.unicode_ToASCII Example.BASE_URL
              Example.shortid_generate 1 10 1 11 "http://example.net/x" Example.world
              {| status := 201;
                 body := shortened "http://example.net/x" "http://localhost:3000/dBvJIh-H"
                           "dBvJIh-H" |}
              {| urls := Example.three_urls
                         ++ [mkUrl "http://example.net/x" "dBvJIh-H" 0 10 None];
                 generated := 4 |}
              {| status := 201;
                 body := shortened "http://example.net/x" "http://localhost:3000/2WEKaVNO"
                           "2WEKaVNO" |}
              {| urls := Example.three_urls
                         ++ [ mkUrl "http://example.net/x" "dBvJIh-H" 0 10 None;
                              mkUrl "http://example.net/x" "2WEKaVNO" 0 11 None ];
                 generated := 5 |}
              eq_refl eq_refl eq_refl eq_refl eq_refl)
    as (d1 & d2 & _ & _ & _ & _ & _ & _ & Hdup).
  exact Hdup.
Defined.

(** [web_url_has_host] for an https URL. *)
Lemma web_url_has_host_witness :
  exists h,
    URL.host (URL.mkURL "https" (Some (URL.Domain "example.org"))) = Some h /\
    network_host h = true.
Proof.
  apply (web_url_has_host Example.unicode_ToASCII "https://example.org/a?b=c").
  - reflexivity.
  - vm_compute. right. left.
Defined.

(** [opaque_url_is_valid] for a mailto address and its upper-case
    scheme. *)
Lemma opaque_url_is_valid_witness :
  URL.basic_URL_parser Example.unicode_ToASCII "MailTo:a@b.c"
    = Some (URL.mkURL "mailto" None) /\
  isValidUrl Example.unicode_ToASCII "MailTo:a@b.c" = true.
Proof.
  apply (opaque_url_is_valid Example.unicode_ToASCII "MailTo:a@b.c" "M"%char
           (list_ascii_of_string "ailTo") (list_ascii_of_string "a@b.c"));
    [reflexivity | reflexivity | reflexivity | reflexivity | done].
Defined.
